(** * bisslog-fastapi: the HTTP trigger processor and the path-variable extractor

    A shallow embedding of
    - [bisslog_fastapi/utils/extract_path_vars.py] and
    - [bisslog_fastapi/builder/strategies/trigger_http_processor.py]
    together with the properties of the generated handler text, of the
    signature, of the argument bindings and of the import requirements.

    Python [str] values are modelled by [string]: a sequence of 8-bit
    characters, read as the UTF-8 encoding of the text.  The classes of the
    regular expression and the markers searched for (braces, dots) are all
    ASCII, and the byte-wise lexicographic order of UTF-8 is the order of the
    code points, so comparisons and matching agree with Python's. *)

From Stdlib Require Import Ascii NArith DecimalString.
From Stdlib Require DecimalPos DecimalZ.
From stdpp Require Import gmap strings list sorting.

(** ** Strings *)

Module Str.

(** [s.startswith(p)] *)
Definition startswith (s p : string) : bool := String.prefix p s.

(** [sep.join(parts)] *)
Definition join (sep : string) (parts : list string) : string :=
  String.concat sep parts.

(** Truthiness of a [str]: the empty string is falsy. *)
Definition truthy (s : string) : bool := negb (String.eqb s "").

(** Truthiness of an [Optional[str]]: [None] and the empty string are
    falsy. *)
Definition opt_truthy (o : option string) : bool :=
  match o with Some s => truthy s | None => false end.

(** [o or d] for an [Optional[str]] [o]. *)
Definition or_else (o : option string) (d : string) : string :=
  match o with
  | Some s => if truthy s then s else d
  | None => d
  end.

(** [s.split(sep, 1)] for a one-character separator: the text before the
    first occurrence and, when there is one, the text after it. *)
Fixpoint split1 (sep : ascii) (s : string) : string * option string :=
  match s with
  | "" => ("", None)
  | String a s' =>
      if Ascii.eqb a sep then ("", Some s')
      else let '(h, t) := split1 sep s' in (String a h, t)
  end.

(** [s.split(sep, 1)[1]]; [None] stands for the [IndexError] raised when
    the separator does not occur. *)
Definition split1_second (sep : ascii) (s : string) : option string :=
  snd (split1 sep s).

(** [str(n)] for an [int]. *)
Definition of_int (n : Z) : string := NilZero.string_of_int (Z.to_int n).

Definition newline : string := String "010" "".

End Str.

(** ** A backtracking matcher for the fragment of [re] that the code uses

    The compiled form of a pattern is a list of operations, as in CPython's
    [sre]: literals, one-character sets, the greedy repetition of a
    one-character set, and the two marks that delimit capture group 1. *)

Module Re.

(** A character set [[...]]: a list of inclusive ranges. *)
Definition cset := list (ascii * ascii).

Definition in_cset (c : ascii) (cs : cset) : bool :=
  existsb (λ r, (N_of_ascii r.1 <=? N_of_ascii c)%N
                  && (N_of_ascii c <=? N_of_ascii r.2)%N) cs.

Inductive op :=
| Lit (c : ascii)        (* one literal character *)
| In (cs : cset)         (* one character of a set *)
| StarIn (cs : cset)     (* [cs*], greedy *)
| MarkOpen               (* start of group 1 *)
| MarkClose.             (* end of group 1 *)

(** Positions of the start and of the end of group 1. *)
Definition marks := (nat * nat)%type.

(** [run prog s pos m] matches [prog] at the front of [s], the text that
    follows position [pos] of the subject.  It returns the text left, the
    end position and the marks, or [None] when no way of matching exists.
    A repetition takes as many characters as it can and gives them back
    one at a time while the rest of the pattern fails. *)
Fixpoint run (prog : list op) (s : string) (pos : nat) (m : marks)
  {struct prog} : option (string * nat * marks) :=
  match prog with
  | [] => Some (s, pos, m)
  | Lit c :: k =>
      match s with
      | String a s' => if Ascii.eqb a c then run k s' (S pos) m else None
      | "" => None
      end
  | In cs :: k =>
      match s with
      | String a s' => if in_cset a cs then run k s' (S pos) m else None
      | "" => None
      end
  | StarIn cs :: k =>
      (fix star (s : string) (pos : nat) {struct s} :=
         match s with
         | String a s' =>
             if in_cset a cs then
               match star s' (S pos) with
               | Some r => Some r
               | None => run k s pos m
               end
             else run k s pos m
         | "" => run k s pos m
         end) s pos
  | MarkOpen :: k => run k s pos (pos, m.2)
  | MarkClose :: k => run k s pos (m.1, pos)
  end.

(** [re.findall(prog, s)] for a pattern with one group: scan from the left,
    collect the text of group 1 of every match, and go on after the end of
    the match (one character further when the match is empty or when there
    is none).  The fuel bounds the number of starting positions tried. *)
Fixpoint findall_from (fuel : nat) (prog : list op) (s : string)
  : list string :=
  match fuel with
  | 0 => []
  | S fuel' =>
      let advance :=
        match s with
        | "" => []
        | String _ s' => findall_from fuel' prog s'
        end in
      match run prog s 0 (0, 0) with
      | Some (rest, n, (b, e)) =>
          String.substring b (e - b) s ::
            (if decide (n = 0) then advance
             else findall_from fuel' prog rest)
      | None => advance
      end
  end.

Definition findall (prog : list op) (s : string) : list string :=
  findall_from (S (String.length s)) prog s.

End Re.

(** ** [extract_path_vars] and [_extract_path_param_names_from_path] *)

(** [[a-zA-Z_]] *)
Definition ident_start : Re.cset :=
  [("a", "z"); ("A", "Z"); ("_", "_")]%char.

(** [[a-zA-Z0-9_]] *)
Definition ident_char : Re.cset :=
  [("a", "z"); ("A", "Z"); ("0", "9"); ("_", "_")]%char.

(** The pattern of the source: an opening brace, then group 1, made of one
    character of [ident_start] and a greedy run of characters of
    [ident_char], then a closing brace. *)
Definition placeholder_re : list Re.op :=
  [Re.Lit "{"; Re.MarkOpen; Re.In ident_start; Re.StarIn ident_char;
   Re.MarkClose; Re.Lit "}"]%char.

(** [re.findall(pattern, path or empty)]; the argument is [None] for a
    missing path. *)
Definition extract_path_vars (path : option string) : list string :=
  Re.findall placeholder_re (Str.or_else path "").

(** ** Dictionaries, sets of names, and [sorted] *)

(** A [dict[str, str]] in insertion order: the keys are pairwise distinct. *)
Definition str_dict := list (string * string).

(** [key in d] and [d[key]] ([None] when the key is absent). *)
Fixpoint dict_get (key : string) (d : str_dict) : option string :=
  match d with
  | [] => None
  | (k, v) :: d' => if String.eqb k key then Some v else dict_get key d'
  end.

(** The order of Python on pairs of strings: by the first components, and by
    the second ones when the first are equal. *)
Definition entry_le (x y : string * string) : Prop :=
  match String.compare x.1 y.1 with
  | Lt => True
  | Eq => String.le x.2 y.2
  | Gt => False
  end.

#[global] Instance entry_le_dec : RelDecision entry_le.
Proof.
  intros x y. unfold entry_le.
  destruct (String.compare x.1 y.1); apply _.
Defined.

(** [sorted(items)] on pairs of strings. *)
Definition sorted (items : list (string * string)) : list (string * string) :=
  merge_sort entry_le items.

(** The import requirements, a [dict[str, set[str]]]. *)
Abbreviation import_map := (gmap string (gset string)).

(** [imports.setdefault(modname, set()).update(names)], which is also
    [.add(name)] for a singleton. *)
Definition add_names (modname : string) (names : gset string)
    (imports : import_map) : import_map :=
  <[modname := default ∅ (imports !! modname) ∪ names]> imports.

(** [for mod, names in extra.items(): imports.setdefault(mod, set()).update(names)];
    [extra] lists the items of the dictionary in iteration order. *)
Definition merge_imports (extra : list (string * gset string))
    (imports : import_map) : import_map :=
  foldl (λ acc item, add_names item.1 item.2 acc) imports extra.

(** A [for] loop whose body may raise: the first failure ends it. *)
Fixpoint for_each {A S : Type} (step : S → A → option S) (st : S) (l : list A)
  : option S :=
  match l with
  | [] => Some st
  | x :: l' =>
      match step st x with
      | Some st' => for_each step st' l'
      | None => None
      end
  end.

(** ** The collaborators of the processor

    [get_param_type], [type_to_str_and_imports] and [infer_response_model]
    live in other modules of the package; the annotation objects and the
    callable are opaque to the processor.  The case conversions of [str] and
    [repr] are Python built-ins that depend on the Unicode tables.  All of
    them are parameters of the embedding. *)
Record Collaborators := {
  annotation : Type;
  callable : Type;
  get_param_type : callable → string → option annotation;
  type_to_str_and_imports : annotation → string * list (string * gset string);
  infer_response_model : callable → option annotation;
  (** the built-in type [str] *)
  str_type : annotation;
  (** [s.upper()], [s.lower()] and [repr(s)] *)
  str_upper : string → string;
  str_lower : string → string;
  str_repr : string → string;
}.

(** ** Inputs and output of the processor *)

Record TriggerHttp := {
  method : option string;
  path : option string;
  mapper : option str_dict;
}.

Record UseCaseCodeInfo := { is_coroutine : bool }.

Record StaticPythonConstructData := {
  importing : import_map;
  body : string;
}.

(** The three accumulators of [__call__]. *)
Record gen_state := {
  imports : import_map;
  sig_params : list string;
  uc_arg_names : list (string * string);
}.

Definition dquote : string := String "034" "".

(** ** [TriggerHttpProcessor] *)

Module TriggerHttpProcessor.

(** The static method: the same expression as [extract_path_vars], with the
    result turned into a tuple. *)
Definition _extract_path_param_names_from_path (path : option string)
  : list string :=
  Re.findall placeholder_re (Str.or_else path "").

Section call.
Context (C : Collaborators).
Context (use_case_key uc_var_name : string) (uc_info : UseCaseCodeInfo)
        (trigger_info : TriggerHttp) (callable_obj : callable C)
        (identifier : Z)
        (use_case_name use_case_description : option string).

(** [get_param_type(callable_obj, dst) or str], then
    [type_to_str_and_imports(ann)]. *)
Definition type_of_or_str (dst : string)
  : string * list (string * gset string) :=
  type_to_str_and_imports C
    (default (str_type C) (get_param_type C callable_obj dst)).

(** The declarations appended to [sig_params], one per category. *)
Definition path_decl (src type_str : string) : string :=
  src +:+ ": " +:+ type_str +:+ " = Path(...)".
Definition body_decl (dst type_str : string) : string :=
  dst +:+ ": " +:+ type_str +:+ " = Body(...)".
Definition body_field_decl (field type_str : string) : string :=
  field +:+ ": " +:+ type_str +:+ " = Body(..., alias="
    +:+ str_repr C field +:+ "),  ".
Definition params_decl (dst type_str : string) : string :=
  dst +:+ ": " +:+ type_str +:+ " = Depends(_all_query_params),  ".
Definition params_field_decl (field type_str : string) : string :=
  field +:+ ": " +:+ type_str +:+ " = Query(None, alias="
    +:+ str_repr C field +:+ "),  ".
Definition headers_decl (dst type_str : string) : string :=
  dst +:+ ": " +:+ type_str +:+ " = Depends(_all_headers),  ".
Definition headers_field_decl (field type_str : string) : string :=
  field +:+ ": " +:+ type_str +:+ " = Header(..., alias="
    +:+ str_repr C field +:+ "),  ".

(** The four filters over the keys of the mapper. *)
Definition is_path_query (k : string) : bool :=
  Str.startswith k "path_query.".
Definition is_body_field (k : string) : bool :=
  Str.startswith k "body." && negb (String.eqb k "body").
Definition is_params_field (k : string) : bool :=
  Str.startswith k "params." && negb (String.eqb k "params").
Definition is_headers_field (k : string) : bool :=
  Str.startswith k "headers." && negb (String.eqb k "headers").

(** [sorted((k, v) for k, v in mapper.items() if keep(k))] *)
Definition entries (keep : string → bool) (m : str_dict)
  : list (string * string) :=
  sorted (filter (λ kv, keep kv.1) m).

(** The body of the four loops over dotted keys.  They differ in the
    symbol imported from fastapi and in the declaration only. *)
Definition field_step (marker : string) (decl : string → string → string)
    (st : gen_state) (kv : string * string) : option gen_state :=
  let '(source_key, dst) := kv in
  field ← Str.split1_second "." source_key;
  let '(type_str, extra_imports) := type_of_or_str dst in
  Some {| imports := add_names "fastapi" {[marker]}
                       (merge_imports extra_imports (imports st));
          sig_params := sig_params st ++ [decl field type_str];
          uc_arg_names := uc_arg_names st ++ [(dst, field)] |}.

(** The three blocks for a bare [body], [params] or [headers] key.  They
    differ in the key, in the type and the typing names used when the
    destination has no annotation, in the symbol imported from fastapi and
    in the declaration. *)
Definition bare_step (key fallback_type : string)
    (fallback_typing : gset string) (marker : string)
    (decl : string → string → string) (m : str_dict) (st : gen_state)
  : gen_state :=
  match dict_get key m with
  | None => st
  | Some dst =>
      let '(type_str, imports1) :=
        match get_param_type C callable_obj dst with
        | None =>
            (fallback_type,
             add_names "typing" fallback_typing (imports st))
        | Some ann =>
            let '(type_str, extra_imports) :=
              type_to_str_and_imports C ann in
            (type_str, merge_imports extra_imports (imports st))
        end in
      {| imports := add_names "fastapi" {[marker]} imports1;
         sig_params := sig_params st ++ [decl dst type_str];
         uc_arg_names := uc_arg_names st ++ [(dst, dst)] |}
  end.

(** The branch [if mapper:]. *)
Definition explicit_mode (m : str_dict) (st0 : gen_state)
  : option gen_state :=
  let st := {| imports := add_names "fastapi" {["Depends"]} (imports st0);
               sig_params := sig_params st0;
               uc_arg_names := uc_arg_names st0 |} in
  st ← for_each (field_step "Path" path_decl) st (entries is_path_query m);
  let st := bare_step "body" "Dict[str, Any]" {["Dict"; "Any"]} "Body"
              body_decl m st in
  st ← for_each (field_step "Body" body_field_decl) st
         (entries is_body_field m);
  let st := bare_step "params" "Dict[str, Any]" {["Dict"; "Any"]} "Depends"
              params_decl m st in
  st ← for_each (field_step "Query" params_field_decl) st
         (entries is_params_field m);
  let st := bare_step "headers" "Dict[str, str]" {["Dict"]} "Depends"
              headers_decl m st in
  for_each (field_step "Header" headers_field_decl) st
    (entries is_headers_field m).

(** The body of the loop over the names found in the path. *)
Definition path_step (st : gen_state) (p_name : string) : gen_state :=
  let '(type_str, extra_imports) := type_of_or_str p_name in
  {| imports := add_names "fastapi" {["Path"]}
                  (merge_imports extra_imports (imports st));
     sig_params := sig_params st ++ [path_decl p_name type_str];
     uc_arg_names := uc_arg_names st |}.

(** The branch [else:]. *)
Definition fallback_mode (path : string) (st0 : gen_state) : gen_state :=
  let path_param_names :=
    _extract_path_param_names_from_path (Some path) in
  let st := foldl path_step st0 path_param_names in
  {| imports :=
       add_names "fastapi" {["Depends"]}
         (add_names "typing" {["Dict"; "Any"]}
            (add_names "fastapi" {["Body"]} (imports st)));
     sig_params :=
       sig_params st ++
         ["body: Dict[str, Any] = Body(default={})";
          "query_params: Dict[str, Any] = Depends(_all_query_params)";
          "headers: Dict[str, str] = Depends(_all_headers)"];
     uc_arg_names := uc_arg_names st |}.

(** [mapper = trigger_info.mapper or {}] *)
Definition the_mapper : str_dict := default [] (mapper trigger_info).

(** [if mapper:]: a dictionary is truthy when it is not empty. *)
Definition explicit : bool :=
  match the_mapper with [] => false | _ :: _ => true end.

(** [method = (trigger_info.method or GET).upper()] *)
Definition the_method : string :=
  str_upper C (Str.or_else (method trigger_info) "GET").

(** [raw_path = trigger_info.path or f-string of a slash and the key] *)
Definition the_path : string :=
  Str.or_else (path trigger_info) ("/" +:+ use_case_key).

Definition handler_name : string :=
  use_case_key +:+ "_handler_" +:+ Str.of_int identifier.

Definition initial_state : gen_state :=
  {| imports := ∅; sig_params := []; uc_arg_names := [] |}.

(** The state after the two branches on the mapper. *)
Definition signature_state : option gen_state :=
  if explicit then explicit_mode the_mapper initial_state
  else Some (fallback_mode the_path initial_state).

Definition extra_args_decorator : string :=
  let extra :=
    if Str.opt_truthy use_case_name
    then ", name=" +:+ dquote +:+ default "" use_case_name +:+ dquote
    else "" in
  if Str.opt_truthy use_case_description
  then extra +:+ ", description=" +:+ dquote
         +:+ default "" use_case_description +:+ dquote
  else extra.

Definition http_decorator : string :=
  "@app."
    +:+ (if Str.truthy the_method then str_lower C the_method else "GET")
    +:+ "(" +:+ dquote +:+ the_path +:+ dquote
    +:+ extra_args_decorator +:+ ")".

Definition def_or_async : string :=
  if is_coroutine uc_info then "async def" else "def".

(** The return annotation and its imports. *)
Definition return_part : string * list (string * gset string) :=
  match infer_response_model C callable_obj with
  | None => ("", [])
  | Some ret_ann =>
      let '(return_type_str, return_imports) :=
        type_to_str_and_imports C ret_ann in
      (" -> " +:+ return_type_str, return_imports)
  end.

Definition def_line (st : gen_state) : string :=
  def_or_async +:+ " " +:+ handler_name +:+ "("
    +:+ Str.join ", " (sig_params st) +:+ ")" +:+ return_part.1 +:+ ":".

Definition docstring_lines : list string :=
  if Str.opt_truthy use_case_description
  then ["    " +:+ dquote +:+ dquote +:+ dquote
          +:+ default "" use_case_description
          +:+ dquote +:+ dquote +:+ dquote]
  else [].

(** One line [_kwargs[dst] = field]. *)
Definition kwarg_line (dst field : string) : string :=
  "    _kwargs[" +:+ dquote +:+ dst +:+ dquote +:+ "] = " +:+ field.

(** The lines that fill the collector, in either mode. *)
Definition kwargs_lines (st : gen_state) : list string :=
  if explicit then
    map (λ b, kwarg_line b.1 b.2) (uc_arg_names st)
  else
    map (λ p_name, kwarg_line p_name p_name)
        (_extract_path_param_names_from_path (Some the_path))
      ++ ["    if isinstance(body, dict):";
          "        _kwargs.update(body)";
          "    _kwargs.update(query_params)";
          "    _kwargs.update(headers)"].

Definition call_line : string :=
  if is_coroutine uc_info
  then "    result = await " +:+ uc_var_name +:+ "(" +:+ "**_kwargs)"
  else "    result = " +:+ uc_var_name +:+ "(" +:+ "**_kwargs)".

(** The list [lines] at the end of [__call__]. *)
Definition handler_lines (st : gen_state) : list string :=
  [http_decorator; def_line st]
    ++ docstring_lines
    ++ ["    _kwargs: Dict[str, Any] = {}"]
    ++ kwargs_lines st
    ++ [call_line; "    return result"; ""].

(** [__call__]: [None] stands for an exception. *)
Definition __call__ : option StaticPythonConstructData :=
  st ← signature_state;
  Some {| importing := merge_imports return_part.2 (imports st);
          body := Str.join Str.newline (handler_lines st) |}.

End call.

End TriggerHttpProcessor.

(** ** A concrete set of collaborators, used to run the processor

    An annotation is the name of a type, a callable is the table of its
    annotated parameters with its return annotation, and the only type that
    needs an import is [UUID].  The case conversions act on the ASCII
    letters, and [repr] puts its argument between single quotes. *)

Module Sample.

Definition ascii_upper (c : ascii) : ascii :=
  let n := N_of_ascii c in
  if ((97 <=? n) && (n <=? 122))%N then ascii_of_N (n - 32) else c.

Definition ascii_lower (c : ascii) : ascii :=
  let n := N_of_ascii c in
  if ((65 <=? n) && (n <=? 90))%N then ascii_of_N (n + 32) else c.

Fixpoint map_string (f : ascii → ascii) (s : string) : string :=
  match s with
  | "" => ""
  | String a s' => String (f a) (map_string f s')
  end.

Definition collaborators : Collaborators := {|
  annotation := string;
  callable := str_dict * option string;
  get_param_type := λ c name, dict_get name c.1;
  type_to_str_and_imports := λ ann,
    (ann, if String.eqb ann "UUID" then [("uuid", {["UUID"]})] else []);
  infer_response_model := λ c, c.2;
  str_type := "str";
  str_upper := map_string ascii_upper;
  str_lower := map_string ascii_lower;
  str_repr := λ s, "'" +:+ s +:+ "'";
|}.

(** A use case without annotations. *)
Definition plain : callable collaborators := ([], None).

Definition sync_info : UseCaseCodeInfo := {| is_coroutine := false |}.
Definition async_info : UseCaseCodeInfo := {| is_coroutine := true |}.

(** The trigger of the example of the documentation. *)
Definition company_trigger : TriggerHttp := {|
  method := Some "get";
  path := Some "/company/data/{schema}/{uid}";
  mapper := Some [("path_query.uid", "uid");
                  ("path_query.schema", "schema_id")];
|}.

End Sample.

(** ** What the extractor is expected to return *)

Definition is_letter (c : ascii) : bool :=
  let n := N_of_ascii c in
  (((65 <=? n) && (n <=? 90)) || ((97 <=? n) && (n <=? 122)))%N.

Definition is_digit (c : ascii) : bool :=
  let n := N_of_ascii c in ((48 <=? n) && (n <=? 57))%N.

Definition is_underscore (c : ascii) : bool := Ascii.eqb c "_".

(** A letter or an underscore. *)
Definition name_start (c : ascii) : bool := is_letter c || is_underscore c.

(** A letter, a digit or an underscore. *)
Definition name_char (c : ascii) : bool :=
  is_letter c || is_digit c || is_underscore c.

Fixpoint all_chars (p : ascii → bool) (s : string) : bool :=
  match s with
  | "" => true
  | String a s' => p a && all_chars p s'
  end.

Definition is_identifier (s : string) : bool :=
  match s with
  | "" => false
  | String a s' => name_start a && all_chars name_char s'
  end.

(** [Placeholders s names]: reading [s] from the left, [names] are the
    identifiers of the successive placeholders, an identifier between braces.
    A position where no placeholder starts is passed over, and the reading
    goes on after the closing brace of a placeholder. *)
Inductive Placeholders : string → list string → Prop :=
| ph_end : Placeholders "" []
| ph_hit s id rest names :
    s = "{" +:+ id +:+ "}" +:+ rest →
    is_identifier id = true →
    Placeholders rest names →
    Placeholders s (id :: names)
| ph_skip s a s' names :
    s = String a s' →
    (∀ id rest, is_identifier id = true → s ≠ "{" +:+ id +:+ "}" +:+ rest) →
    Placeholders s' names →
    Placeholders s names.

(** The longest prefix of [s] made of characters of [p], and what follows. *)
Fixpoint span (p : ascii → bool) (s : string) : string * string :=
  match s with
  | "" => ("", "")
  | String a s' =>
      if p a then let '(w, r) := span p s' in (String a w, r) else ("", s)
  end.

(** The placeholder at the front of [s], if any: its identifier and the text
    after its closing brace. *)
Definition placeholder_at (s : string) : option (string * string) :=
  match s with
  | String "{" (String a s') =>
      if name_start a then
        let '(w, r) := span name_char s' in
        match r with
        | String "}" r' => Some (String a w, r')
        | _ => None
        end
      else None
  | _ => None
  end.

(** ** Vocabulary for the statements about the processor *)

(** The text after the first dot of a key of the mapper (empty when there is
    no dot). *)
Definition key_field (k : string) : string :=
  default "" (Str.split1_second "." k).



Section vocabulary.
Context (C : Collaborators) (callable_obj : callable C).

(** The type text of the parameter bound to [dst]. *)
Definition type_str_of (dst : string) : string :=
  (TriggerHttpProcessor.type_of_or_str C callable_obj dst).1.

(** The declaration and the binding of an entry with a dotted key. *)
Definition field_param (decl : string → string → string)
    (kv : string * string) : string :=
  decl (key_field kv.1) (type_str_of kv.2).
Definition field_binding (kv : string * string) : string * string :=
  (kv.2, key_field kv.1).

(** The type text of an aggregate parameter. *)
Definition bare_type_str (fallback_type dst : string) : string :=
  match get_param_type C callable_obj dst with
  | None => fallback_type
  | Some ann => (type_to_str_and_imports C ann).1
  end.

(** The declaration and the binding of a bare key, when it is mapped. *)
Definition bare_params (key fallback_type : string)
    (decl : string → string → string) (m : str_dict) : list string :=
  match dict_get key m with
  | None => []
  | Some dst => [decl dst (bare_type_str fallback_type dst)]
  end.
Definition bare_bindings (key : string) (m : str_dict)
  : list (string * string) :=
  match dict_get key m with
  | None => []
  | Some dst => [(dst, dst)]
  end.
(** The key of the entry has a dot, so that its split has a second part. *)
Definition has_field (kv : string * string) : Prop :=
  is_Some (Str.split1_second "." kv.1).

(** The imports after one of the four loops. *)
Definition field_imports (marker : string) (im : import_map)
    (l : list (string * string)) : import_map :=
  foldl (λ im kv,
           add_names "fastapi" {[marker]}
             (merge_imports (TriggerHttpProcessor.type_of_or_str C callable_obj kv.2).2 im))
        im l.

(** The imports after one of the three blocks for a bare key. *)
Definition bare_imports (key : string) (fallback_typing : gset string)
    (marker : string) (m : str_dict) (im : import_map) : import_map :=
  match dict_get key m with
  | None => im
  | Some dst =>
      add_names "fastapi" {[marker]}
        match get_param_type C callable_obj dst with
        | None => add_names "typing" fallback_typing im
        | Some ann =>
            merge_imports (type_to_str_and_imports C ann).2 im
        end
  end.

(** The imports at the end of the explicit mode. *)
Definition explicit_imports (m : str_dict) (im : import_map) : import_map :=
  field_imports "Header"
    (bare_imports "headers" {["Dict"]} "Depends" m
       (field_imports "Query"
          (bare_imports "params" {["Dict"; "Any"]} "Depends" m
             (field_imports "Body"
                (bare_imports "body" {["Dict"; "Any"]} "Body" m
                   (field_imports "Path"
                      (add_names "fastapi" {["Depends"]} im)
                      (TriggerHttpProcessor.entries TriggerHttpProcessor.is_path_query m)))
                (TriggerHttpProcessor.entries TriggerHttpProcessor.is_body_field m)))
          (TriggerHttpProcessor.entries TriggerHttpProcessor.is_params_field m)))
    (TriggerHttpProcessor.entries TriggerHttpProcessor.is_headers_field m).
End vocabulary.



(** The names imported from fastapi. *)
Definition fastapi_names (imports : import_map) : gset string :=
  default ∅ (imports !! "fastapi").

(** One of the three symbols of fastapi that stand for the body, the query
    and the headers. *)
Definition is_marker (sym : string) : Prop :=
  sym = "Body" ∨ sym = "Query" ∨ sym = "Header".

(** No type annotation asks for [Body], [Query] or [Header] of fastapi. *)
Definition annotations_need_no_marker (C : Collaborators) : Prop :=
  ∀ ann names sym,
    ("fastapi", names) ∈ (type_to_str_and_imports C ann).2 →
    sym ∈ names → sym ≠ "Body" ∧ sym ≠ "Query" ∧ sym ≠ "Header".

(** Two trigger descriptions are equal as Python values: the same method and
    path, and mappers with the same items, whatever their insertion
    order. *)
Definition same_trigger (t1 t2 : TriggerHttp) : Prop :=
  method t1 = method t2 ∧ path t1 = path t2 ∧
  match mapper t1, mapper t2 with
  | Some m1, Some m2 => m1 ≡ₚ m2
  | None, None => True
  | _, _ => False
  end.

(** The keys of a dictionary are pairwise distinct. *)
Definition well_formed (t : TriggerHttp) : Prop :=
  NoDup (default [] (mapper t)).*1.

(** ** The meaning of the statements generated in fallback mode

    The values at run time are texts or dictionaries of texts; [locals]
    gives the value of each parameter of the handler. *)

Inductive pyval :=
| PyStr (s : string)
| PyDict (d : gmap string string).

(** [isinstance(v, dict)], with the entries of the dictionary. *)
Definition as_dict (v : pyval) : option (gmap string pyval) :=
  match v with
  | PyDict d => Some (PyStr <$> d)
  | PyStr _ => None
  end.

Inductive fallback_stmt :=
| SetFromPath (p_name : string)   (* _kwargs[p_name] = p_name *)
| UpdateFromBody                  (* the guarded update from body *)
| UpdateFromQuery                 (* _kwargs.update(query_params) *)
| UpdateFromHeaders.              (* _kwargs.update(headers) *)

(** The lines of text of a statement, as Python source. *)
Definition render (i : fallback_stmt) : list string :=
  match i with
  | SetFromPath p_name =>
      ["    _kwargs[" +:+ dquote +:+ p_name +:+ dquote +:+ "] = " +:+ p_name]
  | UpdateFromBody =>
      ["    if isinstance(body, dict):"; "        _kwargs.update(body)"]
  | UpdateFromQuery => ["    _kwargs.update(query_params)"]
  | UpdateFromHeaders => ["    _kwargs.update(headers)"]
  end.

(** The keywords of Python, and [__debug__]: a parameter of one of these
    names is a syntax error. *)
Definition python_keywords : list string :=
  ["False"; "None"; "True"; "and"; "as"; "assert"; "async"; "await";
   "break"; "class"; "continue"; "def"; "del"; "elif"; "else"; "except";
   "finally"; "for"; "from"; "global"; "if"; "import"; "in"; "is";
   "lambda"; "nonlocal"; "not"; "or"; "pass"; "raise"; "return"; "try";
   "while"; "with"; "yield"; "__debug__"].

(** The names that the generated statements read.  A path parameter of one
    of these names repeats a parameter of the signature ([body],
    [query_params], [headers]: a syntax error), is rebound by the first line
    of the body ([_kwargs]), or hides the built-in that the test on the body
    calls ([isinstance], [dict]: a type error). *)
Definition body_names : list string :=
  ["_kwargs"; "isinstance"; "dict"; "body"; "query_params"; "headers"].

Definition reserved (name : string) : bool :=
  bool_decide (name ∈ python_keywords ++ body_names).

(** The path parameters for which the generated handler is a function whose
    statements read the values of its own parameters: pairwise distinct
    (a repeated parameter is a syntax error) and not reserved. *)
Definition parameters_accepted (names : list string) : bool :=
  bool_decide (NoDup names) && forallb (λ n, negb (reserved n)) names.

(** [kwargs.update(v)]: the entries of a dictionary override those of
    [kwargs]; the empty text is an empty sequence of pairs and changes
    nothing; a text that is not empty is a sequence of texts of one
    character, none of which is a pair, and the update raises. *)
Definition dict_update (kwargs : gmap string pyval) (v : pyval)
  : option (gmap string pyval) :=
  match v with
  | PyDict d => Some ((PyStr <$> d) ∪ kwargs)
  | PyStr "" => Some kwargs
  | PyStr _ => None
  end.

(** The effect of a statement on the collector.  [None] is an exception, or
    an assignment from a parameter with a reserved name, whose value is not
    the one that [locals] gives. *)
Definition exec (locals : string → pyval) (i : fallback_stmt)
    (kwargs : gmap string pyval) : option (gmap string pyval) :=
  match i with
  | SetFromPath p_name =>
      if reserved p_name then None
      else Some (<[p_name := locals p_name]> kwargs)
  | UpdateFromBody =>
      match as_dict (locals "body") with
      | Some d => Some (d ∪ kwargs)
      | None => Some kwargs
      end
  | UpdateFromQuery => dict_update kwargs (locals "query_params")
  | UpdateFromHeaders => dict_update kwargs (locals "headers")
  end.

Definition exec_all (locals : string → pyval) (prog : list fallback_stmt)
    (kwargs : gmap string pyval) : option (gmap string pyval) :=
  for_each (λ kw i, exec locals i kw) kwargs prog.

(** The collector after the assignments of the path parameters. *)
Definition set_paths (locals : string → pyval) (names : list string)
    (kw : gmap string pyval) : gmap string pyval :=
  foldl (λ kw n, <[n := locals n]> kw) kw names.

(** The statements of the fallback mode for a path. *)
Definition fallback_program (path : string) : list fallback_stmt :=
  (SetFromPath <$>
     TriggerHttpProcessor._extract_path_param_names_from_path (Some path))
    ++ [UpdateFromBody; UpdateFromQuery; UpdateFromHeaders].

(** The collector that the handler of a path builds from the values of its
    parameters, starting from the empty dictionary; [None] when Python does
    not accept the parameters or a statement raises. *)
Definition run_fallback (locals : string → pyval) (path : string)
  : option (gmap string pyval) :=
  if parameters_accepted
       (TriggerHttpProcessor._extract_path_param_names_from_path (Some path))
  then exec_all locals (fallback_program path) ∅
  else None.

(** A request used to run the statements: the path gives [item_id], and the
    key [q] is in the body, in the query and in the headers. *)
Definition sample_locals (name : string) : pyval :=
  if String.eqb name "body" then
    PyDict {["item_id" := "from body"; "q" := "from body"; "b" := "only body"]}
  else if String.eqb name "query_params" then
    PyDict {["q" := "from query"; "h" := "from query"]}
  else if String.eqb name "headers" then
    PyDict {["h" := "from headers"]}
  else PyStr "from path".

(** ** Vocabulary for further properties *)

(** [needle in s]: the text [needle] occurs in [s]. *)
Definition contains (s needle : string) : Prop :=
  ∃ pre post, s = pre +:+ needle +:+ post.

(** [c in s] for a character. *)
Fixpoint has_char (c : ascii) (s : string) : bool :=
  match s with
  | "" => false
  | String a s' => Ascii.eqb a c || has_char c s'
  end.

(** A byte that continues a character in the UTF-8 encoding of a text:
    one of the 64 bytes from 128 to 191. *)
Definition is_continuation (c : ascii) : bool :=
  let n := N_of_ascii c in ((128 <=? n) && (n <=? 191))%N.

(** [len(s)]: the number of characters of a text, that is the number of
    bytes of its encoding that do not continue a character. *)
Fixpoint char_count (s : string) : nat :=
  match s with
  | "" => 0
  | String a s' => (if is_continuation a then 0 else 1) + char_count s'
  end.

(** The names imported from a module. *)
Definition names_of (modname : string) (imports : import_map) : gset string :=
  default ∅ (imports !! modname).

(** A key of one of the seven categories of the explicit mode. *)
Definition recognised (k : string) : bool :=
  TriggerHttpProcessor.is_path_query k
  || String.eqb k "body" || TriggerHttpProcessor.is_body_field k
  || String.eqb k "params" || TriggerHttpProcessor.is_params_field k
  || String.eqb k "headers" || TriggerHttpProcessor.is_headers_field k.

(** The path template with one segment per name, each a placeholder. *)
Fixpoint template_of (names : list string) : string :=
  match names with
  | [] => ""
  | n :: names' => "/{" +:+ n +:+ "}" +:+ template_of names'
  end.

(** [s.upper()] never turns a text that is not empty into the empty text. *)
Definition upper_keeps_text (C : Collaborators) : Prop :=
  ∀ s, s ≠ "" → str_upper C s ≠ "".

(** The text after the last occurrence of [c] in [s], or [s] itself when
    [c] does not occur. *)
Fixpoint after_last (c : ascii) (s : string) : string :=
  match s with
  | "" => ""
  | String a s' =>
      if has_char c s' then after_last c s'
      else if Ascii.eqb a c then s' else s
  end.

(** A key of one of the four dotted categories. *)
Definition dotted (k : string) : bool :=
  TriggerHttpProcessor.is_path_query k || TriggerHttpProcessor.is_body_field k
  || TriggerHttpProcessor.is_params_field k
  || TriggerHttpProcessor.is_headers_field k.

(** A key whose declaration ends with a comma and two spaces: every category
    but the path parameters and the bare [body]. *)
Definition comma_key (k : string) : bool :=
  TriggerHttpProcessor.is_body_field k
  || String.eqb k "params" || TriggerHttpProcessor.is_params_field k
  || String.eqb k "headers" || TriggerHttpProcessor.is_headers_field k.

(** * Properties *)

(** ** Facts about strings *)

Module StrFacts.
Import Str.

Lemma app_cons a s t : String a s +:+ t = String a (s +:+ t).
Proof. reflexivity. Qed.

Lemma app_nil_l s : "" +:+ s = s.
Proof. reflexivity. Qed.

Lemma app_nil_r s : s +:+ "" = s.
Proof. induction s as [|a s IH]; [done|]. by rewrite app_cons, IH. Qed.

Lemma app_assoc s1 s2 s3 : (s1 +:+ s2) +:+ s3 = s1 +:+ (s2 +:+ s3).
Proof.
  induction s1 as [|a s1 IH]; [done|]. by rewrite !app_cons, IH.
Qed.

Lemma app_length s1 s2 :
  String.length (s1 +:+ s2) = String.length s1 + String.length s2.
Proof.
  induction s1 as [|a s1 IH]; [done|]. rewrite app_cons. cbn. by rewrite IH.
Qed.

Lemma startswith_app p s : startswith (p +:+ s) p = true.
Proof.
  unfold startswith. induction p as [|a p IH]; [by destruct s|].
  rewrite app_cons. cbn. destruct (ascii_dec a a); [apply IH|done].
Qed.

Lemma startswith_inv s p :
  startswith s p = true → ∃ r, s = p +:+ r.
Proof.
  unfold startswith. revert s. induction p as [|a p IH]; intros s H.
  - by exists s.
  - destruct s as [|b s]; cbn in H; [done|].
    destruct (ascii_dec a b) as [->|]; [|done].
    destruct (IH _ H) as [r ->]. by exists r.
Qed.

End StrFacts.

(** ** The extractor *)

Section extractor.

Example extract_doc :
  TriggerHttpProcessor._extract_path_param_names_from_path
    (Some "/company/data/{schema}/{uid}") = ["schema"; "uid"].
Proof. reflexivity. Qed.

(** Braces that enclose no identifier are passed over. *)
Example extract_malformed :
  extract_path_vars (Some "/a/{b/{c}/}{1x}{}{_d9}{e") = ["c"; "_d9"].
Proof. reflexivity. Qed.

Lemma in_ident_start c : Re.in_cset c ident_start = name_start c.
Proof. by destruct c as [[] [] [] [] [] [] [] []]. Qed.

Lemma in_ident_char c : Re.in_cset c ident_char = name_char c.
Proof. by destruct c as [[] [] [] [] [] [] [] []]. Qed.

Lemma name_char_not_brace c : name_char c = true → c ≠ "}"%char.
Proof. by intros H ->. Qed.

Lemma span_app p s w r : span p s = (w, r) → s = w +:+ r.
Proof.
  revert w r. induction s as [|a s IH]; intros w r; cbn.
  - by intros [= <- <-].
  - destruct (p a); [|by intros [= <- <-]].
    destruct (span p s) as [w' r'] eqn:E. intros [= <- <-].
    by rewrite StrFacts.app_cons, <-(IH w' r').
Qed.

Lemma span_all p s w r : span p s = (w, r) → all_chars p w = true.
Proof.
  revert w r. induction s as [|a s IH]; intros w r; cbn.
  - by intros [= <- <-].
  - destruct (p a) eqn:Ea; [|by intros [= <- <-]].
    destruct (span p s) as [w' r'] eqn:E. intros [= <- <-].
    cbn. rewrite Ea. by apply (IH w' r').
Qed.

Lemma span_stop p w b r :
  all_chars p w = true → p b = false →
  span p (w +:+ String b r) = (w, String b r).
Proof.
  intros Hw Hb. induction w as [|a w IH].
  - rewrite StrFacts.app_nil_l. cbn. by rewrite Hb.
  - cbn in Hw. apply andb_true_iff in Hw as [Ha Hw].
    rewrite StrFacts.app_cons. cbn. by rewrite Ha, (IH Hw).
Qed.

Lemma placeholder_at_Some s id rest :
  placeholder_at s = Some (id, rest) ↔
  is_identifier id = true ∧ s = "{" +:+ id +:+ "}" +:+ rest.
Proof.
  split.
  - destruct s as [|c [|a s]]; [done| |].
    { cbn. by repeat case_match. }
    unfold placeholder_at.
    destruct (Ascii.eqb_spec c "{") as [->|Hc]; [|by repeat case_match].
    destruct (name_start a) eqn:Ha; [|done].
    destruct (span name_char s) as [w r] eqn:E.
    destruct r as [|b r']; [done|].
    destruct (Ascii.eqb_spec b "}") as [->|Hb]; [|by repeat case_match].
    intros [= <- <-]. split.
    + cbn. rewrite Ha. by rewrite (span_all _ _ _ _ E).
    + by rewrite (span_app _ _ _ _ E).
  - intros [Hid ->]. destruct id as [|a w]; [done|].
    cbn in Hid. apply andb_true_iff in Hid as [Ha Hw].
    change ("{" +:+ String a w +:+ "}" +:+ rest)
      with (String "{" (String a (w +:+ String "}" rest))).
    unfold placeholder_at. rewrite Ha.
    by rewrite (span_stop name_char w "}" rest Hw).
Qed.

Lemma placeholder_at_None s id rest :
  placeholder_at s = None → is_identifier id = true →
  s ≠ "{" +:+ id +:+ "}" +:+ rest.
Proof.
  intros HN Hid Hs.
  assert (placeholder_at s = Some (id, rest)) as H
    by by apply placeholder_at_Some.
  congruence.
Qed.

Lemma run_close s pos m :
  Re.run [Re.MarkClose; Re.Lit "}"%char] s pos m =
  match s with
  | String "}" r => Some (r, S pos, (m.1, pos))
  | _ => None
  end.
Proof.
  destruct s as [|b r]; [done|]. cbn.
  destruct (Ascii.eqb_spec b "}") as [->|Hb]; [done|].
  by repeat case_match.
Qed.

(** The greedy repetition before the closing brace: backtracking never
    finds a match that the longest run misses. *)
Lemma run_star_close s pos m :
  Re.run [Re.StarIn ident_char; Re.MarkClose; Re.Lit "}"%char] s pos m =
  match (span name_char s).2 with
  | String "}" r =>
      let n := pos + String.length (span name_char s).1 in
      Some (r, S n, (m.1, n))
  | _ => None
  end.
Proof.
  revert pos. induction s as [|a s IH]; intros pos; [done|].
  change (Re.run [Re.StarIn ident_char; Re.MarkClose; Re.Lit "}"%char]
            (String a s) pos m)
    with (if Re.in_cset a ident_char then
            match Re.run [Re.StarIn ident_char; Re.MarkClose;
                          Re.Lit "}"%char] s (S pos) m with
            | Some r => Some r
            | None => Re.run [Re.MarkClose; Re.Lit "}"%char]
                        (String a s) pos m
            end
          else Re.run [Re.MarkClose; Re.Lit "}"%char] (String a s) pos m).
  rewrite in_ident_char, IH, run_close. cbn [span].
  destruct (name_char a) eqn:Ea.
  - destruct (span name_char s) as [w r]. cbn.
    assert (a ≠ "}"%char) by by apply name_char_not_brace.
    replace (pos + S (String.length w)) with (S pos + String.length w)
      by lia.
    destruct r as [|b r]; [by repeat case_match|].
    destruct (Ascii.eqb_spec b "}") as [->|Hb]; [done|].
    by repeat case_match.
  - cbn. rewrite Nat.add_0_r.
    destruct (Ascii.eqb_spec a "}") as [->|Hb]; [done|].
    by repeat case_match.
Qed.

Lemma run_placeholder s :
  Re.run placeholder_re s 0 (0, 0) =
  match placeholder_at s with
  | Some (id, rest) =>
      Some (rest, 2 + String.length id, (1, 1 + String.length id))
  | None => None
  end.
Proof.
  destruct s as [|c [|a s]]; [done| |].
  { cbn. by repeat case_match. }
  unfold placeholder_re, placeholder_at.
  change (Re.run (Re.Lit "{" :: ?k) (String c (String a s)) 0 (0, 0))
    with (if Ascii.eqb c "{" then
            if Re.in_cset a ident_start then
              Re.run [Re.StarIn ident_char; Re.MarkClose; Re.Lit "}"%char]
                s 2 (1, 0)
            else None
          else None).
  destruct (Ascii.eqb_spec c "{") as [->|Hc]; [|by repeat case_match].
  rewrite in_ident_start. destruct (name_start a); [|done].
  rewrite run_star_close. cbn [fst snd].
  destruct (span name_char s) as [w r]. cbn [fst snd].
  destruct r as [|b r]; [done|].
  destruct (Ascii.eqb_spec b "}") as [->|Hb]; [done|].
  by repeat case_match.
Qed.

Lemma substring_prefix w r :
  String.substring 0 (String.length w) (w +:+ r) = w.
Proof.
  induction w as [|a w IH]; [by destruct r|].
  rewrite StrFacts.app_cons. cbn. by rewrite IH.
Qed.

(** One step of the scan, in terms of [placeholder_at]. *)
Lemma findall_from_step fuel s :
  Re.findall_from (S fuel) placeholder_re s =
  match placeholder_at s with
  | Some (id, rest) => id :: Re.findall_from fuel placeholder_re rest
  | None =>
      match s with
      | "" => []
      | String _ s' => Re.findall_from fuel placeholder_re s'
      end
  end.
Proof.
  cbn [Re.findall_from]. rewrite run_placeholder.
  destruct (placeholder_at s) as [[id rest]|] eqn:E; [|done].
  apply placeholder_at_Some in E as [_ ->].
  f_equal.
  replace (1 + String.length id - 1) with (String.length id) by lia.
  change ("{" +:+ id +:+ "}" +:+ rest)
    with (String "{" (id +:+ "}" +:+ rest)).
  cbn [String.substring]. apply substring_prefix.
Qed.

Lemma findall_from_Placeholders fuel s :
  String.length s < fuel →
  Placeholders s (Re.findall_from fuel placeholder_re s).
Proof.
  revert s. induction fuel as [|fuel IH]; intros s Hlen; [lia|].
  rewrite findall_from_step.
  destruct (placeholder_at s) as [[id rest]|] eqn:E.
  - destruct (proj1 (placeholder_at_Some _ _ _) E) as [Hid Hs].
    eapply ph_hit; [done..|]. apply IH.
    rewrite Hs, !StrFacts.app_length in Hlen. cbn in Hlen. lia.
  - destruct s as [|a s']; [constructor|].
    eapply ph_skip; [done| |].
    + intros id rest Hid. by apply placeholder_at_None.
    + apply IH. cbn in Hlen. lia.
Qed.

Lemma Placeholders_unique s names1 names2 :
  Placeholders s names1 → Placeholders s names2 → names1 = names2.
Proof.
  intros H1. revert names2.
  induction H1 as [|s id rest names Hs Hid _ IH|s a s' names Hs Hno _ IH];
    intros names2 H2.
  - inversion H2 as [|? id' ? ? Hs'|]; [done|by destruct id'|done].
  - inversion H2 as [Hs'|? id' rest' names' Hs' Hid' H'|? ? ? ? ? Hno'];
      subst.
    + by destruct id.
    + assert (Some (id, rest) = Some (id', rest')) as [= <- <-].
      { rewrite <-(proj2 (placeholder_at_Some _ id rest)) by done.
        by apply placeholder_at_Some. }
      f_equal. by apply IH.
    + by destruct (Hno' id rest Hid).
  - inversion H2 as [Hs'|? id' rest' names' Hs' Hid' H'|? ? ? ? Hs' Hno' H'];
      subst.
    + done.
    + by destruct (Hno id' rest' Hid').
    + simplify_eq. by apply IH.
Qed.

Lemma Placeholders_identifiers s names :
  Placeholders s names → Forall (λ n, is_identifier n = true) names.
Proof. induction 1; by constructor || done. Qed.

Lemma or_else_empty s : Str.or_else (Some s) "" = s.
Proof.
  unfold Str.or_else, Str.truthy.
  by destruct (String.eqb_spec s "") as [->|].
Qed.

(** C5: the extractor returns exactly the identifiers of the placeholders
    of the template, from left to right: an identifier is a letter or an
    underscore followed by letters, digits and underscores, and a
    placeholder is an identifier between braces.  A missing or empty
    template gives the empty sequence; the function is total, so braces
    that enclose no identifier are passed over and nothing is raised.  The
    static method of the processor returns the same sequence. *)
Theorem extract_path_vars_placeholders :
  extract_path_vars None = [] ∧
  extract_path_vars (Some "") = [] ∧
  (∀ s, Placeholders s (extract_path_vars (Some s)) ∧
        (∀ names, Placeholders s names →
                  names = extract_path_vars (Some s)) ∧
        Forall (λ n, is_identifier n = true) (extract_path_vars (Some s))) ∧
  (∀ p, TriggerHttpProcessor._extract_path_param_names_from_path p
        = extract_path_vars p).
Proof.
  split_and!; [done..| |done].
  intros s.
  assert (Placeholders s (extract_path_vars (Some s))) as H.
  { unfold extract_path_vars, Re.findall. rewrite or_else_empty.
    apply findall_from_Placeholders. lia. }
  split_and!; [done| |by eapply Placeholders_identifiers].
  intros names Hn. by eapply Placeholders_unique.
Qed.

End extractor.

(** ** The order on the entries and [sorted] *)

Section order.

Lemma compare_refl s : String.compare s s = Eq.
Proof.
  destruct (String.compare s s) eqn:E; [done| |];
    pose proof (String.compare_antisym s s) as H; rewrite E in H; done.
Qed.

Lemma compare_Eq_iff a b : String.compare a b = Eq ↔ a = b.
Proof.
  split; [apply String.compare_eq_iff|intros ->; apply compare_refl].
Qed.

Lemma compare_Lt_iff a b : String.compare a b = Lt ↔ String.le a b ∧ a ≠ b.
Proof.
  unfold String.le, String.leb. split.
  - intros E. rewrite E. split; [done|].
    intros ->. by rewrite compare_refl in E.
  - intros [Hle Hne]. destruct (String.compare a b) eqn:E; [|done..].
    by apply compare_Eq_iff in E.
Qed.

Lemma entry_le_alt x y :
  entry_le x y ↔
  (String.le x.1 y.1 ∧ x.1 ≠ y.1) ∨ (x.1 = y.1 ∧ String.le x.2 y.2).
Proof.
  unfold entry_le. destruct (String.compare x.1 y.1) eqn:E.
  - apply compare_Eq_iff in E. split; [by right|].
    by intros [[_ N]|[_ H]].
  - apply compare_Lt_iff in E as [Hle N]. split; [by left|done].
  - split; [done|]. intros [H|[H _]].
    + apply compare_Lt_iff in H. congruence.
    + apply compare_Eq_iff in H. congruence.
Qed.

#[global] Instance entry_le_trans : Transitive entry_le.
Proof.
  intros x y z. rewrite !entry_le_alt.
  intros [[H1 N1]|[E1 H1]] [[H2 N2]|[E2 H2]].
  - left. split; [by etrans|]. intros E. rewrite E in H1.
    apply N2. by apply (anti_symm String.le).
  - left. by rewrite <-E2.
  - left. by rewrite E1.
  - right. split; [congruence|by etrans].
Qed.

#[global] Instance entry_le_total : Total entry_le.
Proof.
  intros x y. rewrite !entry_le_alt.
  destruct (decide (x.1 = y.1)) as [E|N].
  - destruct (total String.le x.2 y.2); [left|right]; right; done.
  - destruct (total String.le x.1 y.1); [left|right]; left; done.
Qed.

#[global] Instance entry_le_antisym : AntiSymm (=) entry_le.
Proof.
  intros [k1 v1] [k2 v2]. rewrite !entry_le_alt. cbn.
  intros [[H1 N1]|[E1 H1]] [[H2 N2]|[E2 H2]]; try congruence.
  - destruct N1. by apply (anti_symm String.le).
  - f_equal; [done|]. by apply (anti_symm String.le).
Qed.


Lemma sorted_Permutation l : sorted l ≡ₚ l.
Proof. apply merge_sort_Permutation. Qed.

Lemma sorted_StronglySorted l : StronglySorted entry_le (sorted l).
Proof. apply StronglySorted_merge_sort; apply _. Qed.



(** [sorted] does not depend on the order of its argument. *)
Lemma sorted_perm_eq l1 l2 : l1 ≡ₚ l2 → sorted l1 = sorted l2.
Proof.
  intros H. apply (StronglySorted_unique entry_le).
  - apply sorted_StronglySorted.
  - apply sorted_StronglySorted.
  - by rewrite !sorted_Permutation.
Qed.

End order.

(** ** The two modes of the processor *)

Section modes.
Import TriggerHttpProcessor.
Context (C : Collaborators) (callable_obj : callable C).

Lemma split1_second_app p x r :
  Str.split1_second "." p = Some x →
  Str.split1_second "." (p +:+ r) = Some (x +:+ r).
Proof.
  unfold Str.split1_second. revert x.
  induction p as [|a p IH]; intros x; [done|].
  rewrite StrFacts.app_cons. cbn.
  destruct (Ascii.eqb a "."); [by intros [= <-]|].
  destruct (Str.split1 "." p) as [h t].
  destruct (Str.split1 "." (p +:+ r)) as [h' t']. cbn in *.
  intros ->. by apply IH.
Qed.

(** A key that starts with a prefix ending in a dot has a field: the
    subscript of the split never fails in the four loops. *)
Lemma prefix_has_field pfx k :
  Str.split1_second "." pfx = Some "" →
  Str.startswith k pfx = true →
  ∃ r, k = pfx +:+ r ∧ Str.split1_second "." k = Some r.
Proof.
  intros Hp [r ->]%StrFacts.startswith_inv. exists r. split; [done|].
  by rewrite (split1_second_app pfx "" r Hp).
Qed.

Lemma is_path_query_field k : is_path_query k = true → has_field (k, "").
Proof.
  intros H. destruct (prefix_has_field "path_query." k) as (r & _ & Hr);
    [done..|]. by exists r.
Qed.

Lemma is_body_field_field k : is_body_field k = true → has_field (k, "").
Proof.
  intros [H _]%andb_true_iff.
  destruct (prefix_has_field "body." k) as (r & _ & Hr); [done..|].
  by exists r.
Qed.

Lemma is_params_field_field k : is_params_field k = true → has_field (k, "").
Proof.
  intros [H _]%andb_true_iff.
  destruct (prefix_has_field "params." k) as (r & _ & Hr); [done..|].
  by exists r.
Qed.

Lemma is_headers_field_field k :
  is_headers_field k = true → has_field (k, "").
Proof.
  intros [H _]%andb_true_iff.
  destruct (prefix_has_field "headers." k) as (r & _ & Hr); [done..|].
  by exists r.
Qed.

Lemma entries_Permutation keep m :
  entries keep m ≡ₚ filter (λ kv, keep kv.1) m.
Proof. apply sorted_Permutation. Qed.

Lemma entries_keep keep m kv : kv ∈ entries keep m → keep kv.1 = true.
Proof.
  rewrite entries_Permutation, list_elem_of_filter.
  intros [H _]. by apply Is_true_true.
Qed.

Lemma entries_have_fields keep m :
  (∀ k, keep k = true → has_field (k, "")) →
  Forall has_field (entries keep m).
Proof.
  intros Hk. apply Forall_forall. intros [k v] Hin.
  apply (Hk k). by apply (entries_keep keep m (k, v)).
Qed.

(** A loop over entries that all have a field runs to its end. *)
Lemma for_each_field marker decl st l :
  Forall has_field l →
  for_each (field_step C callable_obj marker decl) st l =
  Some {| imports := field_imports C callable_obj marker (imports st) l;
          sig_params :=
            sig_params st ++ (field_param C callable_obj decl <$> l);
          uc_arg_names := uc_arg_names st ++ (field_binding <$> l) |}.
Proof.
  intros Hl. revert st.
  induction Hl as [|[k dst] l [f Hf] _ IH]; intros st.
  - cbn. destruct st. by rewrite !app_nil_r.
  - cbn in Hf.
    assert (field_step C callable_obj marker decl st (k, dst) =
            Some {| imports :=
                      add_names "fastapi" {[marker]}
                        (merge_imports
                           (type_of_or_str C callable_obj dst).2
                           (imports st));
                    sig_params :=
                      sig_params st
                        ++ [field_param C callable_obj decl (k, dst)];
                    uc_arg_names :=
                      uc_arg_names st ++ [field_binding (k, dst)] |})
      as Hstep.
    { unfold field_step, field_param, field_binding, type_str_of,
        key_field. cbn. rewrite Hf. cbn.
      by destruct (type_of_or_str C callable_obj dst). }
    cbn [for_each]. rewrite Hstep, IH. cbn.
    by rewrite <-!app_assoc.
Qed.

Lemma bare_step_eq key ft ftyping marker decl m st :
  bare_step C callable_obj key ft ftyping marker decl m st =
  {| imports := bare_imports C callable_obj key ftyping marker m (imports st);
     sig_params :=
       sig_params st ++ bare_params C callable_obj key ft decl m;
     uc_arg_names := uc_arg_names st ++ bare_bindings key m |}.
Proof.
  unfold bare_step, bare_imports, bare_params, bare_bindings, bare_type_str.
  destruct (dict_get key m) as [dst|].
  - destruct (get_param_type C callable_obj dst) as [ann|]; [|done].
    by destruct (type_to_str_and_imports C ann).
  - destruct st. by rewrite !app_nil_r.
Qed.

(** The explicit mode never raises, and its result in closed form. *)
Lemma explicit_mode_eq m st0 :
  explicit_mode C callable_obj m st0 =
  Some {|
    imports := explicit_imports C callable_obj m (imports st0);
    sig_params :=
      sig_params st0
        ++ (field_param C callable_obj path_decl
              <$> entries is_path_query m)
        ++ bare_params C callable_obj "body" "Dict[str, Any]" body_decl m
        ++ (field_param C callable_obj (body_field_decl C)
              <$> entries is_body_field m)
        ++ bare_params C callable_obj "params" "Dict[str, Any]"
             params_decl m
        ++ (field_param C callable_obj (params_field_decl C)
              <$> entries is_params_field m)
        ++ bare_params C callable_obj "headers" "Dict[str, str]"
             headers_decl m
        ++ (field_param C callable_obj (headers_field_decl C)
              <$> entries is_headers_field m);
    uc_arg_names :=
      uc_arg_names st0
        ++ (field_binding <$> entries is_path_query m)
        ++ bare_bindings "body" m
        ++ (field_binding <$> entries is_body_field m)
        ++ bare_bindings "params" m
        ++ (field_binding <$> entries is_params_field m)
        ++ bare_bindings "headers" m
        ++ (field_binding <$> entries is_headers_field m) |}.
Proof.
  unfold explicit_mode.
  rewrite for_each_field
    by (apply entries_have_fields, is_path_query_field).
  cbn [mbind option_bind]. rewrite bare_step_eq.
  rewrite for_each_field
    by (apply entries_have_fields, is_body_field_field).
  cbn [mbind option_bind]. rewrite bare_step_eq.
  rewrite for_each_field
    by (apply entries_have_fields, is_params_field_field).
  cbn [mbind option_bind]. rewrite bare_step_eq.
  rewrite for_each_field
    by (apply entries_have_fields, is_headers_field_field).
  cbn [imports sig_params uc_arg_names]. unfold explicit_imports.
  by rewrite <-!app_assoc.
Qed.

End modes.

(** ** The signature and the argument bindings *)

Section signature.
Import TriggerHttpProcessor.
Context (C : Collaborators).
Context (use_case_key : string) (trigger_info : TriggerHttp)
        (callable_obj : callable C).

Lemma explicit_true m :
  mapper trigger_info = Some m → m ≠ [] → explicit trigger_info = true.
Proof. unfold explicit, the_mapper. intros -> ?. by destruct m. Qed.

Lemma explicit_false :
  mapper trigger_info = None ∨ mapper trigger_info = Some [] →
  explicit trigger_info = false.
Proof. unfold explicit, the_mapper. by intros [-> | ->]. Qed.

Lemma signature_state_explicit m :
  mapper trigger_info = Some m → m ≠ [] →
  signature_state C use_case_key trigger_info callable_obj = explicit_mode C callable_obj m initial_state.
Proof.
  intros Hm Hne. unfold signature_state.
  rewrite (explicit_true m Hm Hne). unfold the_mapper. by rewrite Hm.
Qed.

Lemma signature_state_fallback :
  mapper trigger_info = None ∨ mapper trigger_info = Some [] →
  signature_state C use_case_key trigger_info callable_obj = Some (fallback_mode C callable_obj
                  (the_path use_case_key trigger_info) initial_state).
Proof. intros H. unfold signature_state. by rewrite explicit_false. Qed.

(** Building the signature never raises. *)
Lemma signature_state_total : ∃ st,
  signature_state C use_case_key trigger_info callable_obj = Some st.
Proof.
  unfold signature_state. destruct (explicit trigger_info); [|by eexists].
  rewrite explicit_mode_eq. by eexists.
Qed.


End signature.


(** ** The example of the documentation *)

Section company_example.
Import TriggerHttpProcessor.
Context (C : Collaborators).
Context (use_case_key uc_var_name : string) (uc_info : UseCaseCodeInfo)
        (callable_obj : callable C) (identifier : Z)
        (use_case_name use_case_description : option string)
        (http_method : option string).

Ltac eval_closed f :=
  repeat match goal with
    | |- context [f ?a ?b] =>
        let v := eval vm_compute in (f a b) in
        change (f a b) with v
    end.

(** C7: for a mapper made of exactly [path_query.schema] to [schema_id] and
    [path_query.uid] to [uid] and the path [/company/data/{schema}/{uid}],
    the signature has exactly two parameters, the path parameters [schema]
    and [uid] in this order, the bindings are [(schema_id, schema)] and
    [(uid, uid)], and the body stores [schema] under [schema_id] and [uid]
    under [uid] in the collector that the call unpacks.  The declarations,
    the line of the definition, the two assignments and the call are given
    as the text that is generated. *)
Theorem company_data_bindings m :
  m ≡ₚ [("path_query.schema", "schema_id"); ("path_query.uid", "uid")] →
  let t := {| method := http_method;
              path := Some "/company/data/{schema}/{uid}";
              mapper := Some m |} in
  let schema_type := type_str_of C callable_obj "schema_id" in
  let uid_type := type_str_of C callable_obj "uid" in
  ∃ st r,
    signature_state C use_case_key t callable_obj = Some st ∧
    sig_params st =
      ["schema: " +:+ schema_type +:+ " = Path(...)";
       "uid: " +:+ uid_type +:+ " = Path(...)"] ∧
    uc_arg_names st = [("schema_id", "schema"); ("uid", "uid")] ∧
    __call__ C use_case_key uc_var_name uc_info t callable_obj identifier
      use_case_name use_case_description = Some r ∧
    body r =
      Str.join Str.newline
        ([http_decorator C use_case_key t use_case_name use_case_description;
          (if is_coroutine uc_info then "async def" else "def")
            +:+ " "
            +:+ (use_case_key +:+ "_handler_" +:+ Str.of_int identifier)
            +:+ "("
            +:+ ("schema: " +:+ schema_type +:+ " = Path(...)")
            +:+ ", "
            +:+ ("uid: " +:+ uid_type +:+ " = Path(...)")
            +:+ ")" +:+ (return_part C callable_obj).1 +:+ ":"]
           ++ docstring_lines use_case_description
           ++ ["    _kwargs: Dict[str, Any] = {}";
               "    _kwargs[" +:+ dquote +:+ "schema_id" +:+ dquote
                 +:+ "] = schema";
               "    _kwargs[" +:+ dquote +:+ "uid" +:+ dquote +:+ "] = uid";
               "    result = "
                 +:+ (if is_coroutine uc_info then "await " else "")
                 +:+ uc_var_name +:+ "(" +:+ "**_kwargs)";
               "    return result"; ""]).
Proof.
  intros Hm t schema_type uid_type.
  assert (m = [("path_query.schema", "schema_id"); ("path_query.uid", "uid")]
          ∨ m = [("path_query.uid", "uid");
                 ("path_query.schema", "schema_id")]) as Hcases.
  { symmetry in Hm. by apply Permutation_length_2_inv in Hm. }
  assert (signature_state C use_case_key t callable_obj =
          Some {| imports := explicit_imports C callable_obj m ∅;
                  sig_params :=
                    ["schema: " +:+ schema_type +:+ " = Path(...)";
                     "uid: " +:+ uid_type +:+ " = Path(...)"];
                  uc_arg_names :=
                    [("schema_id", "schema"); ("uid", "uid")] |}) as Hst.
  { rewrite (signature_state_explicit C use_case_key t callable_obj m)
      by (by destruct Hcases as [-> | ->]).
    rewrite explicit_mode_eq. unfold bare_params, bare_bindings.
    destruct Hcases as [-> | ->];
      eval_closed entries; eval_closed dict_get; reflexivity. }
  eexists _, _. split; [exact Hst|]. split; [done|]. split; [done|].
  unfold __call__. rewrite Hst. cbn [mbind option_bind]. split; [done|].
  cbn [body]. unfold handler_lines, kwargs_lines.
  assert (explicit t = true) as ->
    by (by destruct Hcases as [-> | ->]).
  unfold def_line, def_or_async, handler_name, call_line.
  cbn [sig_params uc_arg_names map fst snd].
  assert (Str.join ", " ["schema: " +:+ schema_type +:+ " = Path(...)";
                         "uid: " +:+ uid_type +:+ " = Path(...)"]
          +:+ ")" +:+ (return_part C callable_obj).1 +:+ ":"
          = ("schema: " +:+ schema_type +:+ " = Path(...)")
              +:+ ", " +:+ ("uid: " +:+ uid_type +:+ " = Path(...)")
              +:+ ")" +:+ (return_part C callable_obj).1 +:+ ":") as ->.
  { unfold Str.join. cbn [String.concat]. by rewrite !StrFacts.app_assoc. }
  by destruct (is_coroutine uc_info).
Qed.

End company_example.

Lemma company_data_bindings_witness :
  [("path_query.uid", "uid"); ("path_query.schema", "schema_id")]
    ≡ₚ [("path_query.schema", "schema_id"); ("path_query.uid", "uid")] ∧
  ∃ st r,
    TriggerHttpProcessor.signature_state Sample.collaborators "get_data"
      Sample.company_trigger Sample.plain = Some st ∧
    sig_params st = ["schema: str = Path(...)"; "uid: str = Path(...)"] ∧
    uc_arg_names st = [("schema_id", "schema"); ("uid", "uid")] ∧
    TriggerHttpProcessor.__call__ Sample.collaborators "get_data" "GET_DATA"
      Sample.sync_info Sample.company_trigger Sample.plain 3 None None
      = Some r ∧
    body r =
      Str.join Str.newline
        ["@app.get(" +:+ dquote +:+ "/company/data/{schema}/{uid}" +:+ dquote
           +:+ ")";
         "def get_data_handler_3(schema: str = Path(...), uid: str = Path(...)):";
         "    _kwargs: Dict[str, Any] = {}";
         "    _kwargs[" +:+ dquote +:+ "schema_id" +:+ dquote +:+ "] = schema";
         "    _kwargs[" +:+ dquote +:+ "uid" +:+ dquote +:+ "] = uid";
         "    result = GET_DATA(" +:+ "**_kwargs)";
         "    return result"; ""].
Proof.
  split; [apply perm_swap|].
  exact (company_data_bindings Sample.collaborators "get_data" "GET_DATA"
           Sample.sync_info Sample.plain 3 None None (Some "get")
           [("path_query.uid", "uid"); ("path_query.schema", "schema_id")]
           (perm_swap _ _ _)).
Defined.

(** ** Declared parameters and bound locals *)

Section declared.
Import TriggerHttpProcessor.
Context (C : Collaborators).
Context (use_case_key : string) (trigger_info : TriggerHttp)
        (callable_obj : callable C).


(** The declarations of the loops over the path names of fallback mode. *)
Lemma foldl_path_step st names :
  foldl (path_step C callable_obj) st names =
  {| imports :=
       foldl (λ im p,
                add_names "fastapi" {["Path"]}
                  (merge_imports (type_of_or_str C callable_obj p).2 im))
             (imports st) names;
     sig_params :=
       sig_params st
         ++ ((λ p, path_decl p (type_str_of C callable_obj p)) <$> names);
     uc_arg_names := uc_arg_names st |}.
Proof.
  revert st. induction names as [|p names IH]; intros st.
  - cbn. destruct st. by rewrite app_nil_r.
  - cbn [foldl]. rewrite IH. unfold path_step, type_str_of.
    destruct (type_of_or_str C callable_obj p) as [ts extra] eqn:E.
    cbn [fmap list_fmap fst snd imports sig_params uc_arg_names].
    rewrite E. by rewrite <-app_assoc.
Qed.








End declared.


(** ** The fallback mode and the default path *)

Section fallback.
Import TriggerHttpProcessor.
Context (C : Collaborators).
Context (use_case_key uc_var_name : string) (uc_info : UseCaseCodeInfo)
        (trigger_info : TriggerHttp) (callable_obj : callable C)
        (identifier : Z)
        (use_case_name use_case_description : option string).




End fallback.


(** A placeholder named [body] is declared twice. *)
Example fallback_duplicate_body :
  sig_params
    (TriggerHttpProcessor.fallback_mode Sample.collaborators Sample.plain
       "/items/{body}" TriggerHttpProcessor.initial_state)
  = ["body: str = Path(...)";
     "body: Dict[str, Any] = Body(default={})";
     "query_params: Dict[str, Any] = Depends(_all_query_params)";
     "headers: Dict[str, str] = Depends(_all_headers)"].
Proof. by vm_compute. Qed.


(** ** The generated text *)

Section text.
Import TriggerHttpProcessor.
Context (C : Collaborators).
Context (use_case_key uc_var_name : string) (uc_info : UseCaseCodeInfo)
        (trigger_info : TriggerHttp) (callable_obj : callable C)
        (identifier : Z)
        (use_case_name use_case_description : option string).

(** The processor never raises. *)
Lemma call_total :
  ∃ st,
    signature_state C use_case_key trigger_info callable_obj = Some st ∧
    __call__ C use_case_key uc_var_name uc_info trigger_info callable_obj
      identifier use_case_name use_case_description
    = Some {| importing :=
                merge_imports (return_part C callable_obj).2 (imports st);
              body :=
                Str.join Str.newline
                  (handler_lines C use_case_key uc_var_name uc_info
                     trigger_info callable_obj identifier use_case_name
                     use_case_description st) |}.
Proof.
  destruct (signature_state_total C use_case_key trigger_info callable_obj)
    as [st Hst].
  exists st. split; [done|]. unfold __call__. by rewrite Hst.
Qed.

(** C6: the handler is always generated; its text is the lines of
    [handler_lines] joined by newlines; the second line, the definition,
    starts with [async def] when the use case is a coroutine and with [def]
    otherwise, and the line of the call, third from the end, awaits the use
    case in the first case and calls it directly in the second. *)
Theorem async_exactly_when_coroutine :
  ∃ st r middle,
    signature_state C use_case_key trigger_info callable_obj = Some st ∧
    __call__ C use_case_key uc_var_name uc_info trigger_info callable_obj
      identifier use_case_name use_case_description = Some r ∧
    body r =
      Str.join Str.newline
        ([http_decorator C use_case_key trigger_info use_case_name
            use_case_description;
          (if is_coroutine uc_info then "async def" else "def")
            +:+ " " +:+ handler_name use_case_key identifier +:+ "("
            +:+ Str.join ", " (sig_params st) +:+ ")"
            +:+ (return_part C callable_obj).1 +:+ ":"]
           ++ middle
           ++ ["    result = "
                 +:+ (if is_coroutine uc_info then "await " else "")
                 +:+ uc_var_name +:+ "(" +:+ "**_kwargs)";
               "    return result"; ""]) ∧
    Str.startswith
      (def_line C use_case_key uc_info callable_obj identifier st)
      "async def " = is_coroutine uc_info ∧
    Str.startswith
      (def_line C use_case_key uc_info callable_obj identifier st)
      "def " = negb (is_coroutine uc_info).
Proof.
  destruct call_total as (st & Hst & Hcall).
  eexists st, _,
    (docstring_lines use_case_description
       ++ ["    _kwargs: Dict[str, Any] = {}"]
       ++ kwargs_lines use_case_key trigger_info st).
  split; [done|]. split; [exact Hcall|].
  cbn [body]. split.
  { unfold handler_lines, def_line, def_or_async, call_line.
    rewrite <-!app_assoc. destruct (is_coroutine uc_info); reflexivity. }
  unfold def_line, def_or_async.
  destruct (is_coroutine uc_info); split;
    first [exact (StrFacts.startswith_app "async def " _)
          |exact (StrFacts.startswith_app "def " _)
          |reflexivity].
Qed.

End text.

(** ** Equal inputs give equal outputs *)

Section determinism.
Import TriggerHttpProcessor.
Context (C : Collaborators).
Context (use_case_key uc_var_name : string) (uc_info : UseCaseCodeInfo)
        (callable_obj : callable C) (identifier : Z)
        (use_case_name use_case_description : option string).

Lemma dict_get_Some m k v :
  NoDup m.*1 → dict_get k m = Some v ↔ (k, v) ∈ m.
Proof.
  induction m as [|[k' v'] m IH]; intros Hnd; cbn.
  - split; [done|]. by intros ?%elem_of_nil.
  - apply NoDup_cons in Hnd as [Hk' Hnd].
    rewrite elem_of_cons. destruct (String.eqb_spec k' k) as [->|Hne].
    + split; [intros [= ->]; by left|].
      intros [[= ->]|Hin]; [done|].
      destruct Hk'. by apply (list_elem_of_fmap_2 fst) in Hin.
    + rewrite (IH Hnd). split; [by right|].
      by intros [[= ? ?]|?].
Qed.

Lemma dict_get_None m k : dict_get k m = None ↔ k ∉ m.*1.
Proof.
  induction m as [|[k' v'] m IH]; cbn.
  - split; [|done]. by intros _ ?%elem_of_nil.
  - rewrite not_elem_of_cons. destruct (String.eqb_spec k' k) as [->|Hne].
    + split; [done|]. by intros [? _].
    + rewrite IH. split; [by split|by intros [_ ?]].
Qed.

(** A lookup does not depend on the insertion order. *)
Lemma dict_get_perm m1 m2 k :
  m1 ≡ₚ m2 → NoDup m1.*1 → dict_get k m1 = dict_get k m2.
Proof.
  intros Hp Hnd1.
  assert (NoDup m2.*1) as Hnd2 by by rewrite <-Hp.
  destruct (dict_get k m1) as [v|] eqn:E1.
  - symmetry. apply dict_get_Some; [done|]. rewrite <-Hp.
    by apply dict_get_Some.
  - symmetry. apply dict_get_None. rewrite <-Hp. by apply dict_get_None.
Qed.

Lemma entries_perm keep m1 m2 :
  m1 ≡ₚ m2 → entries keep m1 = entries keep m2.
Proof. intros Hp. apply sorted_perm_eq. by rewrite Hp. Qed.

Lemma explicit_mode_perm m1 m2 st :
  m1 ≡ₚ m2 → NoDup m1.*1 →
  explicit_mode C callable_obj m1 st = explicit_mode C callable_obj m2 st.
Proof.
  intros Hp Hnd. unfold explicit_mode, bare_step.
  rewrite !(entries_perm _ m1 m2 Hp).
  by rewrite !(dict_get_perm m1 m2 _ Hp Hnd).
Qed.

(** C2: compiling two triggers that are equal as Python values, with the
    other inputs identical, gives the same result: the same text and the
    same import mapping.  The insertion order of the mapper, the only thing
    that may differ between equal inputs, does not show in the output. *)
Theorem same_inputs_same_output t1 t2 :
  same_trigger t1 t2 → well_formed t1 →
  __call__ C use_case_key uc_var_name uc_info t1 callable_obj identifier
    use_case_name use_case_description
  = __call__ C use_case_key uc_var_name uc_info t2 callable_obj identifier
      use_case_name use_case_description.
Proof.
  destruct t1 as [me1 pa1 ma1], t2 as [me2 pa2 ma2].
  unfold same_trigger, well_formed. cbn [method path mapper].
  intros (-> & -> & Hm) Hnd.
  destruct ma1 as [m1|], ma2 as [m2|]; [|done..].
  cbn [default] in Hnd.
  set (t1 := {| method := me2; path := pa2; mapper := Some m1 |}).
  set (t2 := {| method := me2; path := pa2; mapper := Some m2 |}).
  assert (explicit t1 = explicit t2) as Hex.
  { unfold explicit, the_mapper. cbn.
    destruct m1, m2; try done.
    - by apply Permutation_nil_cons in Hm.
    - symmetry in Hm. by apply Permutation_nil_cons in Hm. }
  assert (signature_state C use_case_key t1 callable_obj
          = signature_state C use_case_key t2 callable_obj) as Hsig.
  { unfold signature_state. rewrite Hex. unfold the_mapper.
    cbn [mapper default t1 t2].
    by rewrite (explicit_mode_perm m1 m2 _ Hm Hnd). }
  unfold __call__. rewrite Hsig.
  destruct (signature_state C use_case_key t2 callable_obj) as [st|];
    [|done].
  cbn [mbind option_bind]. do 3 f_equal.
  unfold handler_lines, kwargs_lines. by rewrite Hex.
Qed.

End determinism.

Lemma same_inputs_same_output_witness :
  same_trigger Sample.company_trigger
    {| method := Some "get"; path := Some "/company/data/{schema}/{uid}";
       mapper := Some [("path_query.schema", "schema_id");
                       ("path_query.uid", "uid")] |} ∧
  well_formed Sample.company_trigger ∧
  TriggerHttpProcessor.__call__ Sample.collaborators "get_data" "GET_DATA"
    Sample.sync_info Sample.company_trigger Sample.plain 3 None None
  = TriggerHttpProcessor.__call__ Sample.collaborators "get_data" "GET_DATA"
      Sample.sync_info
      {| method := Some "get"; path := Some "/company/data/{schema}/{uid}";
         mapper := Some [("path_query.schema", "schema_id");
                         ("path_query.uid", "uid")] |}
      Sample.plain 3 None None.
Proof.
  assert (same_trigger Sample.company_trigger
            {| method := Some "get";
               path := Some "/company/data/{schema}/{uid}";
               mapper := Some [("path_query.schema", "schema_id");
                               ("path_query.uid", "uid")] |}) as Hs.
  { split; [reflexivity|]. split; [reflexivity|]. apply perm_swap. }
  assert (well_formed Sample.company_trigger) as Hw.
  { unfold well_formed. cbn. apply NoDup_cons. split.
    - intros H. apply list_elem_of_In in H. cbn in H.
      destruct H as [H|[]]. discriminate H.
    - apply NoDup_cons. split; [|apply NoDup_nil_2].
      intros H. apply list_elem_of_In in H. destruct H. }
  split; [exact Hs|]. split; [exact Hw|].
  exact (same_inputs_same_output Sample.collaborators "get_data" "GET_DATA"
           Sample.sync_info Sample.plain 3 None None _ _ Hs Hw).
Defined.

(** ** The import requirements *)

Section imports.
Import TriggerHttpProcessor.
Context (C : Collaborators).
Context (use_case_key uc_var_name : string) (uc_info : UseCaseCodeInfo)
        (trigger_info : TriggerHttp) (callable_obj : callable C)
        (identifier : Z)
        (use_case_name use_case_description : option string).

Lemma fastapi_add_names names im :
  fastapi_names (add_names "fastapi" names im) = fastapi_names im ∪ names.
Proof. unfold fastapi_names, add_names. by rewrite lookup_insert_eq. Qed.

Lemma fastapi_add_names_other modname names im :
  modname ≠ "fastapi" →
  fastapi_names (add_names modname names im) = fastapi_names im.
Proof.
  intros Hne. unfold fastapi_names, add_names.
  by rewrite lookup_insert_ne.
Qed.

Lemma fastapi_merge_imports extra im sym :
  sym ∈ fastapi_names (merge_imports extra im) ↔
  sym ∈ fastapi_names im ∨
  ∃ names, ("fastapi", names) ∈ extra ∧ sym ∈ names.
Proof.
  unfold merge_imports. revert im.
  induction extra as [|[md names] extra IH]; intros im; cbn [foldl].
  - split; [by left|]. intros [?|(names & ?%elem_of_nil & _)]; done.
  - rewrite IH. cbn [fst snd].
    destruct (decide (md = "fastapi")) as [->|Hne].
    + rewrite fastapi_add_names, elem_of_union. split.
      * intros [[?|?]|(ns & Hin & ?)]; [by left| |].
        -- right. exists names. split; [by left|done].
        -- right. exists ns. split; [by right|done].
      * intros [?|(ns & Hin & ?)]; [by left; left|].
        apply elem_of_cons in Hin as [[= <-]|Hin]; [by left; right|].
        right. by exists ns.
    + rewrite fastapi_add_names_other by done. split.
      * intros [?|(ns & Hin & ?)]; [by left|].
        right. exists ns. split; [by right|done].
      * intros [?|(ns & Hin & ?)]; [by left|].
        apply elem_of_cons in Hin as [[= ? ?]|Hin]; [done|].
        right. by exists ns.
Qed.

(** Names are only ever added to the imports. *)
Lemma fastapi_add_names_mono modname names im sym :
  sym ∈ fastapi_names im → sym ∈ fastapi_names (add_names modname names im).
Proof.
  intros H. destruct (decide (modname = "fastapi")) as [->|Hne].
  - rewrite fastapi_add_names. by apply elem_of_union_l.
  - by rewrite fastapi_add_names_other.
Qed.

Lemma fastapi_merge_mono extra im sym :
  sym ∈ fastapi_names im → sym ∈ fastapi_names (merge_imports extra im).
Proof. intros H. apply fastapi_merge_imports. by left. Qed.

Lemma fastapi_field_mono mk im l sym :
  sym ∈ fastapi_names im →
  sym ∈ fastapi_names (field_imports C callable_obj mk im l).
Proof.
  unfold field_imports. revert im.
  induction l as [|kv l IH]; intros im H; [done|].
  cbn [foldl]. by apply IH, fastapi_add_names_mono, fastapi_merge_mono.
Qed.

Lemma fastapi_field_marker mk im l :
  l ≠ [] → mk ∈ fastapi_names (field_imports C callable_obj mk im l).
Proof.
  destruct l as [|kv l]; [done|]. intros _.
  unfold field_imports. cbn [foldl]. apply fastapi_field_mono.
  rewrite fastapi_add_names. apply elem_of_union_r. by apply elem_of_singleton.
Qed.

Lemma fastapi_bare_mono key ftyping mk m im sym :
  sym ∈ fastapi_names im →
  sym ∈ fastapi_names (bare_imports C callable_obj key ftyping mk m im).
Proof.
  intros H. unfold bare_imports. destruct (dict_get key m) as [dst|]; [|done].
  apply fastapi_add_names_mono.
  destruct (get_param_type C callable_obj dst);
    [by apply fastapi_merge_mono|by apply fastapi_add_names_mono].
Qed.

Section clean.
Context (Hclean : annotations_need_no_marker C).

Lemma marker_type_imports ann im sym :
  is_marker sym →
  sym ∈ fastapi_names (merge_imports (type_to_str_and_imports C ann).2 im)
  ↔ sym ∈ fastapi_names im.
Proof.
  intros Hs. rewrite fastapi_merge_imports. split; [|by left].
  intros [?|(names & Hin & Hsym)]; [done|].
  destruct (Hclean ann names sym Hin Hsym) as (? & ? & ?).
  by destruct Hs as [->|[->| ->]].
Qed.

Lemma marker_field_imports mk im l sym :
  is_marker sym →
  sym ∈ fastapi_names (field_imports C callable_obj mk im l) ↔
  sym ∈ fastapi_names im ∨ (l ≠ [] ∧ sym = mk).
Proof.
  intros Hs. unfold field_imports. revert im.
  induction l as [|kv l IH]; intros im; cbn [foldl].
  - split; [by left|]. by intros [?|[? _]].
  - rewrite IH, fastapi_add_names, elem_of_union, elem_of_singleton.
    unfold type_of_or_str. rewrite marker_type_imports by done.
    split.
    + intros [[?|?]|[_ ?]]; [by left|by right..].
    + intros [?|[_ ?]]; [by left; left|by left; right].
Qed.

Lemma marker_bare_imports key ftyping mk m im sym :
  is_marker sym →
  sym ∈ fastapi_names (bare_imports C callable_obj key ftyping mk m im) ↔
  sym ∈ fastapi_names im ∨ (is_Some (dict_get key m) ∧ sym = mk).
Proof.
  intros Hs. unfold bare_imports.
  destruct (dict_get key m) as [dst|].
  - rewrite fastapi_add_names, elem_of_union, elem_of_singleton.
    assert (sym ∈ fastapi_names
                    match get_param_type C callable_obj dst with
                    | Some ann =>
                        merge_imports (type_to_str_and_imports C ann).2 im
                    | None => add_names "typing" ftyping im
                    end
            ↔ sym ∈ fastapi_names im) as ->.
    { destruct (get_param_type C callable_obj dst) as [ann|].
      - by apply marker_type_imports.
      - by rewrite fastapi_add_names_other. }
    split; [intros [?|?]; [by left|by right]|].
    intros [?|[_ ?]]; [by left|by right].
  - split; [by left|]. intros [?|[[? ?] _]]; done.
Qed.

Lemma marker_return_imports im sym :
  is_marker sym →
  sym ∈ fastapi_names (merge_imports (return_part C callable_obj).2 im)
  ↔ sym ∈ fastapi_names im.
Proof.
  intros Hs. unfold return_part.
  destruct (infer_response_model C callable_obj) as [ann|]; [|done].
  pose proof (marker_type_imports ann im sym Hs) as H.
  by destruct (type_to_str_and_imports C ann).
Qed.

(** The markers among the imports of the explicit mode. *)
Lemma marker_explicit_imports m sym :
  is_marker sym →
  sym ∈ fastapi_names (explicit_imports C callable_obj m ∅) ↔
  (is_Some (dict_get "body" m) ∧ sym = "Body") ∨
  (entries is_body_field m ≠ [] ∧ sym = "Body") ∨
  (entries is_params_field m ≠ [] ∧ sym = "Query") ∨
  (entries is_headers_field m ≠ [] ∧ sym = "Header").
Proof.
  intros Hs. unfold explicit_imports.
  repeat first [rewrite marker_field_imports by done
               |rewrite marker_bare_imports by done].
  rewrite fastapi_add_names. unfold fastapi_names at 1.
  rewrite lookup_empty. cbn [default].
  rewrite elem_of_union, elem_of_singleton.
  destruct Hs as [->|[->| ->]]; split;
    intros H; decompose [and or] H; try done; eauto 10;
    by match goal with H' : _ ∈ ∅ |- _ => apply not_elem_of_empty in H' end.
Qed.

End clean.

Lemma entries_nonempty keep m :
  entries keep m ≠ [] ↔ ∃ k, k ∈ m.*1 ∧ keep k = true.
Proof.
  split.
  - intros Hne. destruct (entries keep m) as [|[k v] l] eqn:E; [done|].
    assert ((k, v) ∈ entries keep m) as Hin by (rewrite E; by left).
    exists k. split; [|by apply (entries_keep keep m (k, v))].
    rewrite entries_Permutation in Hin.
    apply list_elem_of_filter in Hin as [_ Hin].
    by apply (list_elem_of_fmap_2 fst) in Hin.
  - intros (k & [[k' v] [-> Hin]]%list_elem_of_fmap & Hk) E.
    assert ((k', v) ∈ entries keep m) as Hin'.
    { rewrite entries_Permutation. apply list_elem_of_filter.
      split; [by apply Is_true_true|done]. }
    rewrite E in Hin'. by apply elem_of_nil in Hin'.
Qed.

Lemma dict_get_is_Some key m : is_Some (dict_get key m) ↔ key ∈ m.*1.
Proof.
  destruct (dict_get key m) eqn:E.
  - split; [|by eexists]. intros _.
    destruct (decide (key ∈ m.*1)) as [|Hn]; [done|].
    apply dict_get_None in Hn. congruence.
  - apply dict_get_None in E. split; [by intros [? ?]|done].
Qed.

Lemma path_query_not_other k :
  is_path_query k = true →
  k ≠ "body" ∧ is_body_field k = false ∧ is_params_field k = false ∧
  is_headers_field k = false.
Proof.
  intros [r ->]%StrFacts.startswith_inv. by repeat split.
Qed.

(** C3: with a mapper that is not empty and annotations that ask for none
    of them, the symbols [Body], [Query] and [Header] of fastapi are
    imported only when a key of the body, of the query or of the headers is
    mapped: [Body] exactly when the mapper has the key [body] or a [body.]
    key, [Query] exactly when it has a [params.] key, [Header] exactly when
    it has a [headers.] key.  So a mapper with [path_query.] keys only
    imports none of the three; its imports from fastapi still hold [Path]
    and [Depends], the latter being added as soon as there is a mapper. *)
Theorem marker_imports_only_when_mapped m :
  mapper trigger_info = Some m → m ≠ [] →
  annotations_need_no_marker C →
  ∃ r,
    __call__ C use_case_key uc_var_name uc_info trigger_info callable_obj
      identifier use_case_name use_case_description = Some r ∧
    ("Body" ∈ fastapi_names (importing r) ↔
       ∃ k, k ∈ m.*1 ∧ (k = "body" ∨ is_body_field k = true)) ∧
    ("Query" ∈ fastapi_names (importing r) ↔
       ∃ k, k ∈ m.*1 ∧ is_params_field k = true) ∧
    ("Header" ∈ fastapi_names (importing r) ↔
       ∃ k, k ∈ m.*1 ∧ is_headers_field k = true) ∧
    (Forall (λ k, is_path_query k = true) m.*1 →
       ("Body" ∉ fastapi_names (importing r)) ∧
       ("Query" ∉ fastapi_names (importing r)) ∧
       ("Header" ∉ fastapi_names (importing r)) ∧
       "Path" ∈ fastapi_names (importing r) ∧
       "Depends" ∈ fastapi_names (importing r)).
Proof.
  intros Hm Hne Hclean.
  assert (signature_state C use_case_key trigger_info callable_obj
          = explicit_mode C callable_obj m initial_state) as Hsig
    by by apply signature_state_explicit.
  rewrite explicit_mode_eq in Hsig.
  eexists. split; [unfold __call__; by rewrite Hsig|].
  cbn [importing imports initial_state].
  assert (∀ sym, is_marker sym →
            sym ∈ fastapi_names
                    (merge_imports (return_part C callable_obj).2
                       (explicit_imports C callable_obj m ∅)) ↔
            (is_Some (dict_get "body" m) ∧ sym = "Body") ∨
            (entries is_body_field m ≠ [] ∧ sym = "Body") ∨
            (entries is_params_field m ≠ [] ∧ sym = "Query") ∨
            (entries is_headers_field m ≠ [] ∧ sym = "Header")) as Hmark.
  { intros sym Hs. rewrite marker_return_imports by done.
    by apply marker_explicit_imports. }
  assert ("Body" ∈ fastapi_names
                     (merge_imports (return_part C callable_obj).2
                        (explicit_imports C callable_obj m ∅)) ↔
          ∃ k, k ∈ m.*1 ∧ (k = "body" ∨ is_body_field k = true)) as HB.
  { rewrite Hmark by (by left). rewrite dict_get_is_Some, !entries_nonempty.
    split.
    - intros [[? _]|[[(k & ? & ?) _]|[[_ ?]|[_ ?]]]]; [|by eauto|done..].
      exists "body". by split; [|left].
    - intros (k & Hk & [->|Hf]); [by left|]. right. left. by eauto. }
  assert ("Query" ∈ fastapi_names
                      (merge_imports (return_part C callable_obj).2
                         (explicit_imports C callable_obj m ∅)) ↔
          ∃ k, k ∈ m.*1 ∧ is_params_field k = true) as HQ.
  { rewrite Hmark by (by right; left). rewrite !entries_nonempty.
    split.
    - by intros [[_ ?]|[[_ ?]|[[? _]|[_ ?]]]].
    - intros H. right. right. by left. }
  assert ("Header" ∈ fastapi_names
                       (merge_imports (return_part C callable_obj).2
                          (explicit_imports C callable_obj m ∅)) ↔
          ∃ k, k ∈ m.*1 ∧ is_headers_field k = true) as HH.
  { rewrite Hmark by (by right; right). rewrite !entries_nonempty.
    split.
    - by intros [[_ ?]|[[_ ?]|[[_ ?]|[? _]]]].
    - intros H. right. right. by right. }
  split; [exact HB|]. split; [exact HQ|]. split; [exact HH|].
  intros Hall. rewrite Forall_forall in Hall.
  rewrite HB, HQ, HH. split_and!.
  - intros (k & Hk & Hor).
    destruct (path_query_not_other k (Hall k Hk)) as (? & ? & ? & ?).
    destruct Hor; congruence.
  - intros (k & Hk & Hf).
    destruct (path_query_not_other k (Hall k Hk)) as (? & ? & ? & ?).
    congruence.
  - intros (k & Hk & Hf).
    destruct (path_query_not_other k (Hall k Hk)) as (? & ? & ? & ?).
    congruence.
  - apply fastapi_merge_mono. unfold explicit_imports.
    do 3 (apply fastapi_field_mono, fastapi_bare_mono).
    apply fastapi_field_marker, entries_nonempty.
    destruct m as [|[k v] m']; [done|]. exists k.
    split; [by left|]. apply Hall. by left.
  - apply fastapi_merge_mono. unfold explicit_imports.
    do 3 (apply fastapi_field_mono, fastapi_bare_mono).
    apply fastapi_field_mono. rewrite fastapi_add_names.
    apply elem_of_union_r. by apply elem_of_singleton.
Qed.

End imports.

Lemma sample_annotations_need_no_marker :
  annotations_need_no_marker Sample.collaborators.
Proof.
  intros ann names sym Hin _. cbn in Hin.
  destruct (String.eqb ann "UUID").
  - apply elem_of_cons in Hin as [[=]|Hin]. by apply elem_of_nil in Hin.
  - by apply elem_of_nil in Hin.
Qed.

Lemma marker_imports_only_when_mapped_witness :
  mapper Sample.company_trigger
    = Some [("path_query.uid", "uid"); ("path_query.schema", "schema_id")] ∧
  [("path_query.uid", "uid"); ("path_query.schema", "schema_id")] ≠ [] ∧
  annotations_need_no_marker Sample.collaborators ∧
  ∃ r,
    TriggerHttpProcessor.__call__ Sample.collaborators "get_data" "GET_DATA"
      Sample.sync_info Sample.company_trigger Sample.plain 3 None None
      = Some r ∧
    ("Body" ∈ fastapi_names (importing r) ↔
       ∃ k, k ∈ [("path_query.uid", "uid");
                 ("path_query.schema", "schema_id")].*1 ∧
            (k = "body" ∨ TriggerHttpProcessor.is_body_field k = true)) ∧
    ("Query" ∈ fastapi_names (importing r) ↔
       ∃ k, k ∈ [("path_query.uid", "uid");
                 ("path_query.schema", "schema_id")].*1 ∧
            TriggerHttpProcessor.is_params_field k = true) ∧
    ("Header" ∈ fastapi_names (importing r) ↔
       ∃ k, k ∈ [("path_query.uid", "uid");
                 ("path_query.schema", "schema_id")].*1 ∧
            TriggerHttpProcessor.is_headers_field k = true) ∧
    (Forall (λ k, TriggerHttpProcessor.is_path_query k = true)
       [("path_query.uid", "uid"); ("path_query.schema", "schema_id")].*1 →
       ("Body" ∉ fastapi_names (importing r)) ∧
       ("Query" ∉ fastapi_names (importing r)) ∧
       ("Header" ∉ fastapi_names (importing r)) ∧
       "Path" ∈ fastapi_names (importing r) ∧
       "Depends" ∈ fastapi_names (importing r)).
Proof.
  split; [reflexivity|]. split; [discriminate|].
  split; [exact sample_annotations_need_no_marker|].
  apply (marker_imports_only_when_mapped Sample.collaborators "get_data"
           "GET_DATA" Sample.sync_info Sample.company_trigger Sample.plain 3
           None None);
    [reflexivity|discriminate|exact sample_annotations_need_no_marker].
Defined.

(** The imports of the example of the documentation. *)
Example company_imports :
  importing <$>
    TriggerHttpProcessor.__call__ Sample.collaborators "get_data" "GET_DATA"
      Sample.sync_info Sample.company_trigger Sample.plain 3 None None
  = Some {["fastapi" := {["Depends"; "Path"]}]}.
Proof. by vm_compute. Qed.

(** ** The statements of the fallback mode *)

Section fallback_statements.
Import TriggerHttpProcessor.

Lemma for_each_app {A S} (f : S → A → option S) st l1 l2 :
  for_each f st (l1 ++ l2) = for_each f st l1 ≫= λ st', for_each f st' l2.
Proof.
  revert st. induction l1 as [|x l1 IH]; intros st; [done|].
  cbn. destruct (f st x); [apply IH|done].
Qed.

Lemma exec_all_app locals l1 l2 kw :
  exec_all locals (l1 ++ l2) kw
  = exec_all locals l1 kw ≫= exec_all locals l2.
Proof. apply for_each_app. Qed.

Lemma exec_set_paths locals names kw :
  forallb (λ n, negb (reserved n)) names = true →
  exec_all locals (SetFromPath <$> names) kw
  = Some (set_paths locals names kw).
Proof.
  unfold exec_all, set_paths. revert kw.
  induction names as [|n names IH]; intros kw H; [done|].
  cbn in H. apply andb_true_iff in H as [Hn H].
  cbn. destruct (reserved n); [done|]. by apply IH.
Qed.

Lemma lookup_set_paths locals names kw k :
  set_paths locals names kw !! k
  = if decide (k ∈ names) then Some (locals k) else kw !! k.
Proof.
  unfold set_paths. revert kw.
  induction names as [|n names IH]; intros kw; cbn [foldl].
  - by rewrite decide_False by apply not_elem_of_nil.
  - rewrite IH. destruct (decide (k ∈ names)) as [Hin|Hnin].
    + by rewrite decide_True by by right.
    + destruct (decide (k = n)) as [->|Hne].
      * rewrite decide_True by by left. apply lookup_insert_eq.
      * rewrite decide_False by (by intros [?|?]%elem_of_cons).
        by apply lookup_insert_ne.
Qed.

(** A union looks in its left operand first. *)
Lemma lookup_union_first (m1 m2 : gmap string pyval) k :
  (m1 ∪ m2) !! k = match m1 !! k with Some v => Some v | None => m2 !! k end.
Proof. rewrite lookup_union. by destruct (m1 !! k), (m2 !! k). Qed.

(** The text of the statements. *)
Lemma render_program p :
  concat (render <$> fallback_program p)
  = ((λ n, "    _kwargs[" +:+ dquote +:+ n +:+ dquote +:+ "] = " +:+ n)
       <$> _extract_path_param_names_from_path (Some p))
      ++ ["    if isinstance(body, dict):";
          "        _kwargs.update(body)";
          "    _kwargs.update(query_params)";
          "    _kwargs.update(headers)"].
Proof.
  unfold fallback_program. rewrite fmap_app, concat_app. f_equal.
  induction (_extract_path_param_names_from_path (Some p)) as [|n l IH];
    [done|]. cbn. by rewrite IH.
Qed.

(** The lines that the processor writes in fallback mode are the text of
    the statements. *)
Lemma kwargs_lines_fallback use_case_key trigger_info st :
  explicit trigger_info = false →
  kwargs_lines use_case_key trigger_info st
  = concat (render <$> fallback_program (the_path use_case_key trigger_info)).
Proof.
  intros He. unfold kwargs_lines. rewrite He, render_program.
  reflexivity.
Qed.

(** The collector at the end of the statements. *)
Lemma exec_program locals p q h :
  parameters_accepted (_extract_path_param_names_from_path (Some p)) = true →
  locals "query_params" = PyDict q → locals "headers" = PyDict h →
  run_fallback locals p =
  Some ((PyStr <$> h) ∪
        ((PyStr <$> q) ∪
         (default ∅ (as_dict (locals "body")) ∪
          set_paths locals
            (_extract_path_param_names_from_path (Some p)) ∅))).
Proof.
  intros Hok Hq Hh. unfold run_fallback. rewrite Hok.
  apply andb_true_iff in Hok as [_ Hok].
  unfold fallback_program.
  rewrite exec_all_app, (exec_set_paths _ _ _ Hok). cbn.
  rewrite Hq, Hh. cbn.
  destruct (as_dict (locals "body")); cbn; [done|].
  by rewrite (left_id_L ∅ (∪)).
Qed.

Context (C : Collaborators).
Context (use_case_key uc_var_name : string) (uc_info : UseCaseCodeInfo)
        (trigger_info : TriggerHttp) (callable_obj : callable C)
        (identifier : Z)
        (use_case_name use_case_description : option string).

(** C4: without a mapper, the lines that fill the collector are, in this
    order and as the text written here, one assignment per path parameter
    under its own name, the update from [body] guarded by the test that it
    is a dictionary, the update from [query_params], the update from
    [headers]; the call that unpacks the collector follows.  When the path
    parameters are pairwise distinct and none bears a keyword or a name that
    these lines read, the statements, run on any values of the parameters
    with dictionaries for the query and the headers, give to each key the
    value of the last source that has it: the headers, else the query, else
    the body when it is a dictionary, else the path.  So a key of both the
    body and the query gets the value of the query, unless the headers have
    it too. *)
Theorem fallback_merge_precedence :
  mapper trigger_info = None ∨ mapper trigger_info = Some [] →
  let p := the_path use_case_key trigger_info in
  let names := _extract_path_param_names_from_path (Some p) in
  let collector_lines :=
    ((λ n, "    _kwargs[" +:+ dquote +:+ n +:+ dquote +:+ "] = " +:+ n)
       <$> names)
      ++ ["    if isinstance(body, dict):";
          "        _kwargs.update(body)";
          "    _kwargs.update(query_params)";
          "    _kwargs.update(headers)"] in
  ∃ st r,
    signature_state C use_case_key trigger_info callable_obj = Some st ∧
    __call__ C use_case_key uc_var_name uc_info trigger_info callable_obj
      identifier use_case_name use_case_description = Some r ∧
    body r =
      Str.join Str.newline
        ([http_decorator C use_case_key trigger_info use_case_name
            use_case_description;
          def_line C use_case_key uc_info callable_obj identifier st]
           ++ docstring_lines use_case_description
           ++ ["    _kwargs: Dict[str, Any] = {}"]
           ++ collector_lines
           ++ ["    result = "
                 +:+ (if is_coroutine uc_info then "await " else "")
                 +:+ uc_var_name +:+ "(" +:+ "**_kwargs)";
               "    return result"; ""]) ∧
    fallback_program p =
      (SetFromPath <$> names)
        ++ [UpdateFromBody; UpdateFromQuery; UpdateFromHeaders] ∧
    concat (render <$> fallback_program p) = collector_lines ∧
    ∀ locals q h,
      parameters_accepted names = true →
      locals "query_params" = PyDict q → locals "headers" = PyDict h →
      ∃ kwargs,
        run_fallback locals p = Some kwargs ∧
        (∀ k, kwargs !! k =
              match h !! k with
              | Some v => Some (PyStr v)
              | None =>
                  match q !! k with
                  | Some v => Some (PyStr v)
                  | None =>
                      match as_dict (locals "body") ≫= (.!! k) with
                      | Some v => Some v
                      | None =>
                          if decide (k ∈ names) then Some (locals k)
                          else None
                      end
                  end
              end) ∧
        (∀ k v, q !! k = Some v → h !! k = None →
                kwargs !! k = Some (PyStr v)).
Proof.
  intros Hm p names collector_lines.
  destruct (call_total C use_case_key uc_var_name uc_info trigger_info
              callable_obj identifier use_case_name use_case_description)
    as (st & Hst & Hcall).
  exists st. eexists. split; [done|]. split; [exact Hcall|].
  cbn [body]. split.
  { unfold handler_lines.
    rewrite (kwargs_lines_fallback _ _ _ (explicit_false _ Hm)).
    rewrite render_program. fold p names collector_lines.
    unfold call_line. by destruct (is_coroutine uc_info). }
  split; [done|].
  split; [apply render_program|].
  intros locals q h Hok Hq Hh. eexists.
  split; [by apply exec_program|].
  assert (∀ k,
    ((PyStr <$> h) ∪
     ((PyStr <$> q) ∪
      (default ∅ (as_dict (locals "body")) ∪ set_paths locals names ∅)))
      !! k =
    match h !! k with
    | Some v => Some (PyStr v)
    | None =>
        match q !! k with
        | Some v => Some (PyStr v)
        | None =>
            match as_dict (locals "body") ≫= (.!! k) with
            | Some v => Some v
            | None =>
                if decide (k ∈ names) then Some (locals k) else None
            end
        end
    end) as Hlook.
  { intros k.
    rewrite !lookup_union_first, !lookup_fmap, lookup_set_paths, lookup_empty.
    destruct (h !! k); [done|]. destruct (q !! k); [done|]. cbn.
    destruct (as_dict (locals "body")) as [d|]; cbn; [done|].
    by rewrite lookup_empty. }
  split; [exact Hlook|].
  intros k v Hqk Hhk. by rewrite Hlook, Hhk, Hqk.
Qed.

End fallback_statements.

Lemma fallback_merge_precedence_witness :
  (mapper {| method := None; path := Some "/items/{item_id}";
             mapper := None |} = None ∨
   mapper {| method := None; path := Some "/items/{item_id}";
             mapper := None |} = Some []) ∧
  parameters_accepted ["item_id"] = true ∧
  ∃ kwargs,
    run_fallback sample_locals "/items/{item_id}" = Some kwargs ∧
    kwargs !! "q" = Some (PyStr "from query").
Proof.
  split; [by left|]. split; [reflexivity|].
  destruct (fallback_merge_precedence Sample.collaborators "items" "ITEMS"
              Sample.sync_info
              {| method := None; path := Some "/items/{item_id}";
                 mapper := None |}
              Sample.plain 0 None None)
    as (st & r & _ & _ & _ & _ & _ & Hrun); [by left|].
  destruct (Hrun sample_locals {["q" := "from query"; "h" := "from query"]}
              {["h" := "from headers"]} eq_refl eq_refl eq_refl)
    as (kwargs & Hexec & _ & Hq).
  exists kwargs. split; [exact Hexec|].
  apply Hq; reflexivity.
Defined.

(** The statements of the path [/items/{item_id}], their text, and the
    collector they build from the sample request. *)
Example items_program :
  fallback_program "/items/{item_id}"
  = [SetFromPath "item_id"; UpdateFromBody; UpdateFromQuery;
     UpdateFromHeaders].
Proof. reflexivity. Qed.

Example items_text :
  concat (render <$> fallback_program "/items/{item_id}")
  = ["    _kwargs[" +:+ dquote +:+ "item_id" +:+ dquote +:+ "] = item_id";
     "    if isinstance(body, dict):";
     "        _kwargs.update(body)";
     "    _kwargs.update(query_params)";
     "    _kwargs.update(headers)"].
Proof. reflexivity. Qed.

Example items_collector :
  run_fallback sample_locals "/items/{item_id}"
  = Some {[ "item_id" := PyStr "from body"; "b" := PyStr "only body";
            "q" := PyStr "from query"; "h" := PyStr "from headers" ]}.
Proof. by vm_compute. Qed.

(** Parameters that Python does not accept with this meaning: a name that
    the body reads, a keyword, a repeated name. *)
Example refused_parameters :
  run_fallback sample_locals "/items/{body}" = None ∧
  run_fallback sample_locals "/items/{dict}/{item_id}" = None ∧
  run_fallback sample_locals "/items/{class}" = None ∧
  run_fallback sample_locals "/items/{item_id}/{item_id}" = None.
Proof. by vm_compute. Qed.

(** An update from a text: the empty text changes nothing, another text
    raises. *)
Example update_from_text :
  dict_update {["a" := PyStr "1"]} (PyStr "") = Some {["a" := PyStr "1"]} ∧
  dict_update {["a" := PyStr "1"]} (PyStr "ab") = None.
Proof. done. Qed.

(** * Further properties *)

(** ** The extractor on templates without braces, its size and its names *)

Section extractor_more.

Lemma has_char_app c s1 s2 :
  has_char c (s1 +:+ s2) = has_char c s1 || has_char c s2.
Proof.
  induction s1 as [|a s1 IH]; [done|].
  rewrite StrFacts.app_cons. cbn. by rewrite IH, orb_assoc.
Qed.

Lemma placeholder_at_open s :
  is_Some (placeholder_at s) → ∃ s', s = String "{" s'.
Proof.
  intros [[id rest] H]. apply placeholder_at_Some in H as [_ ->].
  by eexists.
Qed.

Lemma findall_no_open fuel s :
  has_char "{" s = false → Re.findall_from fuel placeholder_re s = [].
Proof.
  revert s. induction fuel as [|fuel IH]; intros s Hs; [done|].
  rewrite findall_from_step.
  destruct (placeholder_at s) as [[id rest]|] eqn:E.
  - destruct (placeholder_at_open s) as [s' ->]; [by rewrite E|]. done.
  - destruct s as [|a s']; [done|]. apply IH. cbn in Hs.
    by apply orb_false_iff in Hs as [_ ?].
Qed.

Lemma findall_no_close fuel s :
  has_char "}" s = false → Re.findall_from fuel placeholder_re s = [].
Proof.
  revert s. induction fuel as [|fuel IH]; intros s Hs; [done|].
  rewrite findall_from_step.
  destruct (placeholder_at s) as [[id rest]|] eqn:E.
  - apply placeholder_at_Some in E as [_ ->].
    rewrite !has_char_app in Hs. cbn in Hs.
    by rewrite orb_true_r in Hs.
  - destruct s as [|a s']; [done|]. apply IH. cbn in Hs.
    by apply orb_false_iff in Hs as [_ ?].
Qed.

(** X1: a template without an opening brace, or without a closing brace,
    has no path variable. *)
Theorem extract_without_brace s :
  has_char "{" s = false ∨ has_char "}" s = false →
  extract_path_vars (Some s) = [].
Proof.
  unfold extract_path_vars, Re.findall. rewrite or_else_empty.
  intros [H|H]; [by apply findall_no_open|by apply findall_no_close].
Qed.

Lemma char_count_app s1 s2 :
  char_count (s1 +:+ s2) = char_count s1 + char_count s2.
Proof.
  induction s1 as [|a s1 IH]; [done|].
  rewrite StrFacts.app_cons. cbn [char_count]. rewrite IH. lia.
Qed.

Lemma char_count_length s : char_count s ≤ String.length s.
Proof.
  induction s as [|a s IH]; [done|]. cbn [char_count String.length].
  destruct (is_continuation a); lia.
Qed.

(** The first character of a name is a character of its own. *)
Lemma name_start_not_continuation a :
  name_start a = true → is_continuation a = false.
Proof.
  destruct a as [[] [] [] [] [] [] [] []]; vm_compute; congruence.
Qed.

Lemma is_identifier_chars id : is_identifier id = true → 1 ≤ char_count id.
Proof.
  destruct id as [|a id]; [done|]. cbn [is_identifier char_count].
  intros [Ha _]%andb_true_iff.
  rewrite (name_start_not_continuation a Ha). lia.
Qed.

Lemma findall_chars fuel s :
  3 * length (Re.findall_from fuel placeholder_re s) ≤ char_count s.
Proof.
  revert s. induction fuel as [|fuel IH]; intros s; [cbn; lia|].
  rewrite findall_from_step.
  destruct (placeholder_at s) as [[id rest]|] eqn:E.
  - apply placeholder_at_Some in E as [Hid ->].
    apply is_identifier_chars in Hid.
    rewrite !char_count_app. cbn [length char_count].
    change (is_continuation "{") with false.
    change (is_continuation "}") with false.
    cbv iota. specialize (IH rest). lia.
  - destruct s as [|a s']; [cbn; lia|]. specialize (IH s').
    cbn [char_count]. destruct (is_continuation a); lia.
Qed.

(** X2: a placeholder takes at least three characters of the template, two
    braces and a name that is not empty, so the number of path variables is
    at most a third of the number of characters of the template, which is
    at most the number of bytes of its encoding. *)
Theorem extract_count_bound s :
  3 * length (extract_path_vars (Some s)) ≤ char_count s ∧
  char_count s ≤ String.length s.
Proof.
  split; [|apply char_count_length].
  unfold extract_path_vars, Re.findall. rewrite or_else_empty.
  apply findall_chars.
Qed.

(** A template of seven bytes and three characters, with one variable. *)
Example count_of_accented_template :
  let s := String "{" (String "a" (String "}"
             (String "195" (String "169" (String "195" (String "169" "")))))) in
  extract_path_vars (Some s) = ["a"] ∧ char_count s = 5 ∧ String.length s = 7.
Proof. by vm_compute. Qed.

Lemma contains_cons a s needle : contains s needle → contains (String a s) needle.
Proof.
  intros (pre & post & ->). exists (String a pre), post.
  by rewrite StrFacts.app_cons.
Qed.

Lemma contains_app_r p s needle : contains s needle → contains (p +:+ s) needle.
Proof.
  intros H. induction p as [|a p IH]; [done|].
  rewrite StrFacts.app_cons. by apply contains_cons.
Qed.

Lemma Placeholders_occur s names :
  Placeholders s names →
  Forall (λ n, is_identifier n = true ∧ contains s ("{" +:+ n +:+ "}")) names.
Proof.
  induction 1 as [|s id rest names Hs Hid _ IH|s a s' names Hs _ _ IH].
  - constructor.
  - constructor.
    + split; [done|]. exists "", rest. rewrite Hs.
      by rewrite StrFacts.app_nil_l, !StrFacts.app_assoc.
    + eapply Forall_impl; [exact IH|]. intros n [Hn Hc]. split; [done|].
      rewrite Hs.
      replace ("{" +:+ id +:+ "}" +:+ rest)
        with (("{" +:+ id +:+ "}") +:+ rest)
        by by rewrite !StrFacts.app_assoc.
      by apply contains_app_r.
  - eapply Forall_impl; [exact IH|]. intros n [Hn Hc]. split; [done|].
    rewrite Hs. by apply contains_cons.
Qed.

(** X3: every name returned is an identifier that occurs between braces in
    the template. *)
Theorem extract_names_occur s :
  Forall (λ n, is_identifier n = true ∧ contains s ("{" +:+ n +:+ "}"))
    (extract_path_vars (Some s)).
Proof.
  apply Placeholders_occur.
  unfold extract_path_vars, Re.findall. rewrite or_else_empty.
  apply findall_from_Placeholders. lia.
Qed.

Lemma Placeholders_template names :
  Forall (λ n, is_identifier n = true) names →
  Placeholders (template_of names) names.
Proof.
  induction 1 as [|n names Hn _ IH]; [constructor|].
  cbn [template_of].
  eapply (ph_skip _ "/" ("{" +:+ n +:+ "}" +:+ template_of names)).
  - reflexivity.
  - intros id rest _. discriminate.
  - by eapply ph_hit.
Qed.

(** X4: the template made of one placeholder per name gives back the names,
    in order, when they are identifiers. *)
Theorem extract_template_of names :
  Forall (λ n, is_identifier n = true) names →
  extract_path_vars (Some (template_of names)) = names.
Proof.
  intros H. symmetry.
  apply (Placeholders_unique (template_of names)).
  - by apply Placeholders_template.
  - unfold extract_path_vars, Re.findall. rewrite or_else_empty.
    apply findall_from_Placeholders. lia.
Qed.

End extractor_more.

Lemma extract_without_brace_witness :
  (has_char "{" "/items/id}" = false ∨ has_char "}" "/items/id}" = false) ∧
  extract_path_vars (Some "/items/id}") = [].
Proof.
  split; [by left|]. apply extract_without_brace. by left.
Defined.

Lemma extract_template_of_witness :
  Forall (λ n, is_identifier n = true) ["schema"; "_uid9"] ∧
  extract_path_vars (Some (template_of ["schema"; "_uid9"]))
  = ["schema"; "_uid9"].
Proof.
  assert (Forall (λ n, is_identifier n = true) ["schema"; "_uid9"]) as H
    by (repeat constructor).
  split; [exact H|]. exact (extract_template_of _ H).
Defined.

(** ** The name of the handler *)

Section handler_names.
Import TriggerHttpProcessor.

Lemma uint_no_underscore d :
  has_char "_" (NilEmpty.string_of_uint d) = false.
Proof. induction d; cbn; done. Qed.

Lemma of_int_no_underscore n : has_char "_" (Str.of_int n) = false.
Proof.
  unfold Str.of_int, NilZero.string_of_int, NilZero.string_of_uint.
  destruct (Z.to_int n) as [d|d]; destruct d; cbn;
    try done; apply uint_no_underscore.
Qed.

Lemma of_int_inj a b : Str.of_int a = Str.of_int b → a = b.
Proof.
  unfold Str.of_int. intros H. apply DecimalZ.to_int_inj.
  assert (∀ z, NilZero.int_of_string (NilZero.string_of_int (Z.to_int z))
               = Some (Z.to_int z)) as Hrt.
  { intros z. apply NilZero.isi; destruct z; cbn; try done;
      intros [= Hn]; by apply DecimalPos.Unsigned.to_uint_nonnil in Hn. }
  pose proof (Hrt a) as Ha. rewrite H, Hrt in Ha. by injection Ha.
Qed.

Lemma after_last_sep c k d :
  has_char c d = false → after_last c (k +:+ String c d) = d.
Proof.
  intros Hd. induction k as [|a k IH].
  - rewrite StrFacts.app_nil_l. cbn. by rewrite Hd, Ascii.eqb_refl.
  - rewrite StrFacts.app_cons. cbn [after_last].
    rewrite has_char_app. cbn [has_char].
    by rewrite Ascii.eqb_refl, orb_true_r.
Qed.

Lemma app_inv_tail k1 k2 s : k1 +:+ s = k2 +:+ s → k1 = k2.
Proof.
  revert k2. induction k1 as [|a k1 IH]; intros [|b k2] H.
  - done.
  - apply (f_equal String.length) in H.
    rewrite StrFacts.app_nil_l, StrFacts.app_length in H. cbn in H. lia.
  - apply (f_equal String.length) in H.
    rewrite StrFacts.app_nil_l, StrFacts.app_length in H. cbn in H. lia.
  - rewrite !StrFacts.app_cons in H. injection H as -> H.
    f_equal. by apply IH.
Qed.

(** X5: the name of the handler determines the use case key and the
    identifier it was made from: two handlers with the same name have the
    same key and the same identifier. *)
Theorem handler_name_inj k1 k2 i1 i2 :
  handler_name k1 i1 = handler_name k2 i2 → k1 = k2 ∧ i1 = i2.
Proof.
  unfold handler_name. intros H.
  assert (∀ k i, k +:+ "_handler_" +:+ Str.of_int i
                 = (k +:+ "_handler") +:+ String "_" (Str.of_int i)) as Hsplit.
  { intros k i. by rewrite StrFacts.app_assoc. }
  assert (Str.of_int i1 = Str.of_int i2) as Hi.
  { apply (f_equal (after_last "_")) in H.
    by rewrite !Hsplit, !after_last_sep in H by apply of_int_no_underscore. }
  rewrite Hi in H. split; [|by apply of_int_inj].
  by apply app_inv_tail in H.
Qed.

End handler_names.

Lemma handler_name_inj_witness :
  TriggerHttpProcessor.handler_name "get_data" 3
  = TriggerHttpProcessor.handler_name "get_data" 3 ∧
  "get_data" = "get_data" ∧ 3%Z = 3%Z.
Proof.
  split; [reflexivity|].
  exact (handler_name_inj "get_data" "get_data" 3 3 eq_refl).
Defined.

(** Distinct identifiers give distinct names. *)
Example handler_names_differ :
  TriggerHttpProcessor.handler_name "get_data" 3 = "get_data_handler_3" ∧
  TriggerHttpProcessor.handler_name "get_data" (-3) = "get_data_handler_-3".
Proof. by vm_compute. Qed.

(** ** The keys of the dotted categories *)

Section dotted_keys.
Import TriggerHttpProcessor.
Context (C : Collaborators).
Context (use_case_key uc_var_name : string) (uc_info : UseCaseCodeInfo)
        (trigger_info : TriggerHttp) (callable_obj : callable C)
        (identifier : Z)
        (use_case_name use_case_description : option string).

(** X6: the subscript of the split of a key at its first dot never fails.
    It is applied, in the four loops, to the keys that passed one of the four
    prefix filters, and each of these keys has a dot: whatever the mapper,
    every entry that a loop visits has a second part. *)
Theorem split_subscript_defined :
  (∀ k, dotted k = true → is_Some (Str.split1_second "." k)) ∧
  (∀ m kv,
     kv ∈ entries is_path_query m ++ entries is_body_field m
          ++ entries is_params_field m ++ entries is_headers_field m →
     is_Some (Str.split1_second "." kv.1)).
Proof.
  split.
  - intros k Hk. unfold dotted in Hk.
    repeat (apply orb_true_iff in Hk as [Hk|Hk]).
    + by apply (is_path_query_field k).
    + by apply (is_body_field_field k).
    + by apply (is_params_field_field k).
    + by apply (is_headers_field_field k).
  - intros m kv.
    rewrite !elem_of_app. intros [H|[H|[H|H]]]; revert kv H;
      apply Forall_forall, entries_have_fields.
    + apply is_path_query_field.
    + apply is_body_field_field.
    + apply is_params_field_field.
    + apply is_headers_field_field.
Qed.

Lemma prefix_key pfx r :
  Str.split1_second "." pfx = Some "" →
  Str.startswith (pfx +:+ r) pfx = true ∧ key_field (pfx +:+ r) = r.
Proof.
  intros Hp. split; [apply StrFacts.startswith_app|].
  unfold key_field. by rewrite (split1_second_app pfx "" r Hp).
Qed.

(** X7: the field of a dotted key is all the text after its prefix, further
    dots included, and it may be empty: every text after one of the four
    prefixes makes a key of that category. *)
Theorem dotted_key_field r :
  (is_path_query ("path_query." +:+ r) = true
   ∧ key_field ("path_query." +:+ r) = r) ∧
  (is_body_field ("body." +:+ r) = true ∧ key_field ("body." +:+ r) = r) ∧
  (is_params_field ("params." +:+ r) = true
   ∧ key_field ("params." +:+ r) = r) ∧
  (is_headers_field ("headers." +:+ r) = true
   ∧ key_field ("headers." +:+ r) = r).
Proof.
  unfold is_path_query, is_body_field, is_params_field, is_headers_field.
  destruct (prefix_key "path_query." r eq_refl) as [-> ->].
  destruct (prefix_key "body." r eq_refl) as [-> ->].
  destruct (prefix_key "params." r eq_refl) as [-> ->].
  destruct (prefix_key "headers." r eq_refl) as [-> ->].
  done.
Qed.

(** X8: the second test of the filters of the body, query and header fields
    never decides: a key that starts with the dotted prefix is not the bare
    key. *)
Theorem bare_key_test_redundant k :
  is_body_field k = Str.startswith k "body." ∧
  is_params_field k = Str.startswith k "params." ∧
  is_headers_field k = Str.startswith k "headers.".
Proof.
  unfold is_body_field, is_params_field, is_headers_field.
  split_and!.
  - destruct (Str.startswith k "body.") eqn:E; [|done].
    apply StrFacts.startswith_inv in E as [r ->]. done.
  - destruct (Str.startswith k "params.") eqn:E; [|done].
    apply StrFacts.startswith_inv in E as [r ->]. done.
  - destruct (Str.startswith k "headers.") eqn:E; [|done].
    apply StrFacts.startswith_inv in E as [r ->]. done.
Qed.

End dotted_keys.

Example dotted_key_examples :
  key_field "body.address.city" = "address.city" ∧ key_field "params." = "".
Proof. by vm_compute. Qed.

(** ** What the import requirements always hold *)

Section imports_more.
Import TriggerHttpProcessor.
Context (C : Collaborators).
Context (use_case_key uc_var_name : string) (uc_info : UseCaseCodeInfo)
        (trigger_info : TriggerHttp) (callable_obj : callable C)
        (identifier : Z)
        (use_case_name use_case_description : option string).

Lemma names_of_add_same modname names im :
  names_of modname (add_names modname names im)
  = names_of modname im ∪ names.
Proof. unfold names_of, add_names. by rewrite lookup_insert_eq. Qed.

Lemma names_of_add_mono md modname names im sym :
  sym ∈ names_of md im → sym ∈ names_of md (add_names modname names im).
Proof.
  intros H. destruct (decide (modname = md)) as [->|Hne].
  - rewrite names_of_add_same. by apply elem_of_union_l.
  - unfold names_of, add_names. by rewrite lookup_insert_ne.
Qed.

Lemma names_of_add_elem modname names im sym :
  sym ∈ names → sym ∈ names_of modname (add_names modname names im).
Proof. intros H. rewrite names_of_add_same. by apply elem_of_union_r. Qed.

Lemma names_of_merge_mono md extra im sym :
  sym ∈ names_of md im → sym ∈ names_of md (merge_imports extra im).
Proof.
  unfold merge_imports. revert im.
  induction extra as [|[m' ns] extra IH]; intros im H; [done|].
  cbn [foldl]. by apply IH, names_of_add_mono.
Qed.

Lemma names_of_merge_elem md names extra im sym :
  (md, names) ∈ extra → sym ∈ names →
  sym ∈ names_of md (merge_imports extra im).
Proof.
  unfold merge_imports. revert im.
  induction extra as [|[m' ns] extra IH]; intros im Hin Hs.
  - by apply elem_of_nil in Hin.
  - cbn [foldl]. apply elem_of_cons in Hin as [[= <- <-]|Hin].
    + apply (names_of_merge_mono md extra). by apply names_of_add_elem.
    + by apply IH.
Qed.

Lemma names_of_field_mono md mk im l sym :
  sym ∈ names_of md im →
  sym ∈ names_of md (field_imports C callable_obj mk im l).
Proof.
  unfold field_imports. revert im.
  induction l as [|kv l IH]; intros im H; [done|].
  cbn [foldl]. by apply IH, names_of_add_mono, names_of_merge_mono.
Qed.

Lemma names_of_field_elem md names mk im l kv sym :
  kv ∈ l → (md, names) ∈ (type_of_or_str C callable_obj kv.2).2 →
  sym ∈ names →
  sym ∈ names_of md (field_imports C callable_obj mk im l).
Proof.
  unfold field_imports. revert im.
  induction l as [|kv' l IH]; intros im Hin Hn Hs.
  - by apply elem_of_nil in Hin.
  - cbn [foldl]. apply elem_of_cons in Hin as [<-|Hin].
    + apply (names_of_field_mono md mk _ l).
      by eapply names_of_add_mono, names_of_merge_elem.
    + by apply IH.
Qed.

Lemma names_of_bare_mono md key ftyping mk m im sym :
  sym ∈ names_of md im →
  sym ∈ names_of md (bare_imports C callable_obj key ftyping mk m im).
Proof.
  intros H. unfold bare_imports. destruct (dict_get key m) as [dst|]; [|done].
  apply names_of_add_mono.
  destruct (get_param_type C callable_obj dst);
    [by apply names_of_merge_mono|by apply names_of_add_mono].
Qed.

Lemma names_of_bare_elem md names key ftyping mk m im dst ann sym :
  dict_get key m = Some dst → get_param_type C callable_obj dst = Some ann →
  (md, names) ∈ (type_to_str_and_imports C ann).2 → sym ∈ names →
  sym ∈ names_of md (bare_imports C callable_obj key ftyping mk m im).
Proof.
  intros Hk Ha Hn Hs. unfold bare_imports. rewrite Hk, Ha.
  by eapply names_of_add_mono, names_of_merge_elem.
Qed.

Lemma names_of_bare_fallback key ftyping mk m im dst sym :
  dict_get key m = Some dst → get_param_type C callable_obj dst = None →
  sym ∈ ftyping →
  sym ∈ names_of "typing" (bare_imports C callable_obj key ftyping mk m im).
Proof.
  intros Hk Ha Hs. unfold bare_imports. rewrite Hk, Ha.
  by apply names_of_add_mono, names_of_add_elem.
Qed.

Lemma names_of_bare_marker key ftyping mk m im dst :
  dict_get key m = Some dst →
  mk ∈ names_of "fastapi" (bare_imports C callable_obj key ftyping mk m im).
Proof.
  intros Hk. unfold bare_imports. rewrite Hk.
  apply names_of_add_elem. by apply elem_of_singleton.
Qed.

(** The imports of the path loop of the fallback mode. *)
Lemma names_of_paths_mono md im l sym :
  sym ∈ names_of md im →
  sym ∈ names_of md
          (foldl (λ im p,
                    add_names "fastapi" {["Path"]}
                      (merge_imports (type_of_or_str C callable_obj p).2 im))
                 im l).
Proof.
  revert im. induction l as [|p l IH]; intros im H; [done|].
  cbn [foldl]. by apply IH, names_of_add_mono, names_of_merge_mono.
Qed.

Lemma names_of_paths_elem md names im l p sym :
  p ∈ l → (md, names) ∈ (type_of_or_str C callable_obj p).2 → sym ∈ names →
  sym ∈ names_of md
          (foldl (λ im p,
                    add_names "fastapi" {["Path"]}
                      (merge_imports (type_of_or_str C callable_obj p).2 im))
                 im l).
Proof.
  revert im. induction l as [|p' l IH]; intros im Hin Hn Hs.
  - by apply elem_of_nil in Hin.
  - cbn [foldl]. apply elem_of_cons in Hin as [<-|Hin].
    + apply names_of_paths_mono.
      by eapply names_of_add_mono, names_of_merge_elem.
    + by apply IH.
Qed.

Lemma names_of_paths_marker im l :
  l ≠ [] →
  "Path" ∈ names_of "fastapi"
             (foldl (λ im p,
                       add_names "fastapi" {["Path"]}
                         (merge_imports (type_of_or_str C callable_obj p).2
                            im))
                    im l).
Proof.
  destruct l as [|p l]; [done|]. intros _. cbn [foldl].
  apply names_of_paths_mono, names_of_add_elem. by apply elem_of_singleton.
Qed.

Lemma fallback_imports p :
  imports (fallback_mode C callable_obj p initial_state) =
  add_names "fastapi" {["Depends"]}
    (add_names "typing" {["Dict"; "Any"]}
       (add_names "fastapi" {["Body"]}
          (foldl (λ im p,
                    add_names "fastapi" {["Path"]}
                      (merge_imports (type_of_or_str C callable_obj p).2 im))
                 ∅ (_extract_path_param_names_from_path (Some p))))).
Proof. unfold fallback_mode. by rewrite foldl_path_step. Qed.

(** The result of the processor in each mode. *)
Lemma call_explicit m :
  mapper trigger_info = Some m → m ≠ [] →
  __call__ C use_case_key uc_var_name uc_info trigger_info callable_obj
    identifier use_case_name use_case_description
  = Some {| importing :=
              merge_imports (return_part C callable_obj).2
                (explicit_imports C callable_obj m ∅);
            body :=
              Str.join Str.newline
                (handler_lines C use_case_key uc_var_name uc_info
                   trigger_info callable_obj identifier use_case_name
                   use_case_description
                   (default initial_state
                      (explicit_mode C callable_obj m initial_state))) |}.
Proof.
  intros Hm Hne. unfold __call__.
  rewrite (signature_state_explicit C use_case_key trigger_info callable_obj
             m Hm Hne).
  by rewrite explicit_mode_eq.
Qed.

Lemma call_fallback :
  mapper trigger_info = None ∨ mapper trigger_info = Some [] →
  __call__ C use_case_key uc_var_name uc_info trigger_info callable_obj
    identifier use_case_name use_case_description
  = Some {| importing :=
              merge_imports (return_part C callable_obj).2
                (imports (fallback_mode C callable_obj
                            (the_path use_case_key trigger_info)
                            initial_state));
            body :=
              Str.join Str.newline
                (handler_lines C use_case_key uc_var_name uc_info
                   trigger_info callable_obj identifier use_case_name
                   use_case_description
                   (fallback_mode C callable_obj
                      (the_path use_case_key trigger_info)
                      initial_state)) |}.
Proof.
  intros Hm. unfold __call__.
  by rewrite (signature_state_fallback C use_case_key trigger_info
                callable_obj Hm).
Qed.

(** X9: whatever the input, [Depends] is imported from fastapi.  Without a
    mapper, [Body] is imported from fastapi and [Dict] and [Any] from typing
    as well, and [Path] as soon as the path has a placeholder. *)
Theorem always_imported :
  ∃ r,
    __call__ C use_case_key uc_var_name uc_info trigger_info callable_obj
      identifier use_case_name use_case_description = Some r ∧
    "Depends" ∈ names_of "fastapi" (importing r) ∧
    (explicit trigger_info = false →
       "Body" ∈ names_of "fastapi" (importing r) ∧
       "Dict" ∈ names_of "typing" (importing r) ∧
       "Any" ∈ names_of "typing" (importing r) ∧
       (_extract_path_param_names_from_path
          (Some (the_path use_case_key trigger_info)) ≠ [] →
        "Path" ∈ names_of "fastapi" (importing r))).
Proof.
  destruct (mapper trigger_info) as [[|kv m]|] eqn:Hm.
  - eexists. split; [apply call_fallback; by right|]. cbn [importing].
    rewrite fallback_imports. split_and!.
    + apply names_of_merge_mono, names_of_add_elem. set_solver.
    + intros _. split_and!.
      * apply names_of_merge_mono. do 2 apply names_of_add_mono.
        apply names_of_add_elem. set_solver.
      * apply names_of_merge_mono, names_of_add_mono, names_of_add_elem.
        set_solver.
      * apply names_of_merge_mono, names_of_add_mono, names_of_add_elem.
        set_solver.
      * intros Hne. apply names_of_merge_mono. do 3 apply names_of_add_mono.
        by apply names_of_paths_marker.
  - eexists. split; [by apply (call_explicit (kv :: m))|]. cbn [importing].
    split.
    + apply names_of_merge_mono. unfold explicit_imports.
      do 3 (apply names_of_field_mono, names_of_bare_mono).
      apply names_of_field_mono, names_of_add_elem. set_solver.
    + intros E. by rewrite (explicit_true trigger_info (kv :: m)) in E.
  - eexists. split; [apply call_fallback; by left|]. cbn [importing].
    rewrite fallback_imports. split_and!.
    + apply names_of_merge_mono, names_of_add_elem. set_solver.
    + intros _. split_and!.
      * apply names_of_merge_mono. do 2 apply names_of_add_mono.
        apply names_of_add_elem. set_solver.
      * apply names_of_merge_mono, names_of_add_mono, names_of_add_elem.
        set_solver.
      * apply names_of_merge_mono, names_of_add_mono, names_of_add_elem.
        set_solver.
      * intros Hne. apply names_of_merge_mono. do 3 apply names_of_add_mono.
        by apply names_of_paths_marker.
Qed.

End imports_more.

(** ** The imports asked by the types are kept *)

Section imports_kept.
Import TriggerHttpProcessor.
Context (C : Collaborators).
Context (use_case_key uc_var_name : string) (uc_info : UseCaseCodeInfo)
        (trigger_info : TriggerHttp) (callable_obj : callable C)
        (identifier : Z)
        (use_case_name use_case_description : option string).

Lemma entries_elem keep m kv :
  kv ∈ m → keep kv.1 = true → kv ∈ entries keep m.
Proof.
  intros Hin Hk. rewrite entries_Permutation. apply list_elem_of_filter.
  split; [by apply Is_true_true|done].
Qed.

Ltac peel :=
  first
    [ eapply names_of_field_elem; [eassumption|eassumption|eassumption]
    | eapply names_of_bare_elem;
        [eassumption|eassumption|eassumption|eassumption]
    | eapply names_of_bare_fallback; [eassumption|eassumption|set_solver]
    | apply names_of_field_mono; peel
    | apply names_of_bare_mono; peel ].

(** X10: no import asked by a type is lost.  The result holds every name
    that the type of the return value asks for, and every name asked by the
    type of a bound argument: the destination of a dotted key, the annotated
    destination of a bare key, a path parameter of the fallback mode.  A
    bare key whose destination has no annotation brings [Dict] of typing. *)
Theorem type_imports_kept :
  ∃ r,
    __call__ C use_case_key uc_var_name uc_info trigger_info callable_obj
      identifier use_case_name use_case_description = Some r ∧
    (∀ md names sym,
       (md, names) ∈ (return_part C callable_obj).2 → sym ∈ names →
       sym ∈ names_of md (importing r)) ∧
    (∀ m, mapper trigger_info = Some m → m ≠ [] →
       (∀ k dst md names sym,
          (k, dst) ∈ m → dotted k = true →
          (md, names) ∈ (type_of_or_str C callable_obj dst).2 →
          sym ∈ names → sym ∈ names_of md (importing r)) ∧
       (∀ key dst ann md names sym,
          key ∈ ["body"; "params"; "headers"] →
          dict_get key m = Some dst →
          get_param_type C callable_obj dst = Some ann →
          (md, names) ∈ (type_to_str_and_imports C ann).2 →
          sym ∈ names → sym ∈ names_of md (importing r)) ∧
       (∀ key dst,
          key ∈ ["body"; "params"; "headers"] →
          dict_get key m = Some dst →
          get_param_type C callable_obj dst = None →
          "Dict" ∈ names_of "typing" (importing r))) ∧
    (explicit trigger_info = false →
     ∀ p md names sym,
       p ∈ _extract_path_param_names_from_path
             (Some (the_path use_case_key trigger_info)) →
       (md, names) ∈ (type_of_or_str C callable_obj p).2 →
       sym ∈ names → sym ∈ names_of md (importing r)).
Proof.
  destruct (call_total C use_case_key uc_var_name uc_info trigger_info
              callable_obj identifier use_case_name use_case_description)
    as (st & Hst & Hcall).
  eexists. split; [exact Hcall|]. cbn [importing]. split_and!.
  - intros md names sym Hn Hs. by eapply names_of_merge_elem.
  - intros m Hm Hne.
    rewrite (signature_state_explicit C use_case_key trigger_info
               callable_obj m Hm Hne), explicit_mode_eq in Hst.
    injection Hst as <-. cbn [imports initial_state]. split_and!.
    + intros k dst md names sym Hin Hk Hn Hs.
      apply names_of_merge_mono. unfold explicit_imports.
      unfold dotted in Hk.
      repeat (apply orb_true_iff in Hk as [Hk|Hk]);
        (pose proof (entries_elem _ m (k, dst) Hin Hk) as He;
         change dst with (k, dst).2 in Hn; peel).
    + intros key dst ann md names sym Hkey Hk Ha Hn Hs.
      apply names_of_merge_mono. unfold explicit_imports.
      apply list_elem_of_In in Hkey. cbn in Hkey.
      destruct Hkey as [<-|[<-|[<-|[]]]]; peel.
    + intros key dst Hkey Hk Ha.
      apply names_of_merge_mono. unfold explicit_imports.
      apply list_elem_of_In in Hkey. cbn in Hkey.
      destruct Hkey as [<-|[<-|[<-|[]]]]; peel.
  - intros E p md names sym Hp Hn Hs.
    unfold signature_state in Hst. rewrite E in Hst. injection Hst as <-.
    rewrite fallback_imports.
    apply names_of_merge_mono. do 3 apply names_of_add_mono.
    by eapply names_of_paths_elem.
Qed.

End imports_kept.

(** A use case whose argument and result are of type [UUID]: the import of
    the type is in the result. *)
Example uuid_imports :
  importing <$>
    TriggerHttpProcessor.__call__ Sample.collaborators "get_data" "GET_DATA"
      Sample.sync_info
      {| method := None; path := None;
         mapper := Some [("headers.x-id", "uid")] |}
      ([("uid", "UUID")], Some "UUID") 1 None None
  = Some {["fastapi" := {["Depends"; "Header"]}; "uuid" := {["UUID"]}]}.
Proof. by vm_compute. Qed.

(** ** Which entries of the mapper are bound *)

Section bound_entries.
Import TriggerHttpProcessor.
Context (C : Collaborators).
Context (use_case_key : string) (trigger_info : TriggerHttp)
        (callable_obj : callable C).

Lemma field_bindings_dst keep m dst :
  dst ∈ (field_binding <$> entries keep m).*1 ↔
  ∃ k, (k, dst) ∈ m ∧ keep k = true.
Proof.
  rewrite <-list_fmap_compose. split.
  - intros [[k v] [-> Hin]]%list_elem_of_fmap. cbn. exists k.
    rewrite entries_Permutation in Hin.
    apply list_elem_of_filter in Hin as [Hk Hin].
    split; [done|by apply Is_true_true].
  - intros (k & Hin & Hk).
    apply (list_elem_of_fmap_2 (fst ∘ field_binding) _ (k, dst)).
    by apply entries_elem.
Qed.

Lemma bare_bindings_dst key m dst :
  NoDup m.*1 →
  dst ∈ (bare_bindings key m).*1 ↔ (key, dst) ∈ m.
Proof.
  intros Hnd. unfold bare_bindings.
  destruct (dict_get key m) as [v|] eqn:E.
  - cbn. rewrite list_elem_of_singleton. split.
    + intros ->. by apply dict_get_Some.
    + intros Hin. apply (dict_get_Some m key dst Hnd) in Hin. congruence.
  - cbn. split; [by intros ?%elem_of_nil|].
    intros Hin. apply (dict_get_Some m key dst Hnd) in Hin. congruence.
Qed.

Lemma recognised_cases k :
  recognised k = true ↔
  is_path_query k = true ∨ k = "body" ∨ is_body_field k = true ∨
  k = "params" ∨ is_params_field k = true ∨
  k = "headers" ∨ is_headers_field k = true.
Proof.
  unfold recognised. rewrite !orb_true_iff, !String.eqb_eq.
  split.
  - intros [[[[[[H|H]|H]|H]|H]|H]|H]; auto 10.
  - intros [H|[H|[H|[H|[H|[H|H]]]]]]; auto 10.
Qed.

(** X11: with a mapper whose keys are distinct, the destinations of the
    bindings are exactly the values of the entries whose key is of one of
    the seven categories: each of these arguments is passed to the use case,
    and an entry with any other key is passed over. *)
Theorem bound_destinations m :
  mapper trigger_info = Some m → m ≠ [] → NoDup m.*1 →
  ∃ st,
    signature_state C use_case_key trigger_info callable_obj = Some st ∧
    ∀ dst, dst ∈ (uc_arg_names st).*1 ↔
           ∃ k, (k, dst) ∈ m ∧ recognised k = true.
Proof.
  intros Hm Hne Hnd.
  rewrite (signature_state_explicit C use_case_key trigger_info callable_obj
             m Hm Hne), explicit_mode_eq.
  eexists. split; [done|]. intros dst.
  cbn [uc_arg_names initial_state app].
  rewrite !fmap_app, !elem_of_app, !field_bindings_dst,
    !(bare_bindings_dst _ m dst Hnd).
  split.
  - intros [H|[H|[H|[H|[H|[H|H]]]]]].
    + destruct H as (k & Hin & Hk). exists k. split; [done|].
      apply recognised_cases. by left.
    + exists "body". by split.
    + destruct H as (k & Hin & Hk). exists k. split; [done|].
      apply recognised_cases. by right; right; left.
    + exists "params". by split.
    + destruct H as (k & Hin & Hk). exists k. split; [done|].
      apply recognised_cases. by right; right; right; right; left.
    + exists "headers". by split.
    + destruct H as (k & Hin & Hk). exists k. split; [done|].
      apply recognised_cases. by right; right; right; right; right; right.
  - intros (k & Hin & Hk). apply recognised_cases in Hk.
    destruct Hk as [Hk|[->|[Hk|[->|[Hk|[->|Hk]]]]]].
    + left. by exists k.
    + right. by left.
    + right. right. left. by exists k.
    + right. right. right. by left.
    + right. right. right. right. left. by exists k.
    + right. right. right. right. right. by left.
    + right. right. right. right. right. right. by exists k.
Qed.

Lemma entries_empty keep m :
  Forall (λ k, keep k = false) m.*1 → entries keep m = [].
Proof.
  intros Hall. destruct (entries keep m) as [|kv l] eqn:E; [done|].
  assert (entries keep m ≠ []) as Hne by by rewrite E.
  apply entries_nonempty in Hne as (k & Hk & Hkeep).
  rewrite Forall_forall in Hall. rewrite (Hall k Hk) in Hkeep. done.
Qed.

(** X12: a mapper that is not empty but has no key of the seven categories
    gives a handler without any parameter and without any binding: the
    aggregates of the fallback mode are not declared either, and the use
    case is called without arguments. *)
Theorem unrecognised_mapper m :
  mapper trigger_info = Some m → m ≠ [] →
  Forall (λ k, recognised k = false) m.*1 →
  ∃ st,
    signature_state C use_case_key trigger_info callable_obj = Some st ∧
    sig_params st = [] ∧ uc_arg_names st = [] ∧
    kwargs_lines use_case_key trigger_info st = [].
Proof.
  intros Hm Hne Hall.
  rewrite (signature_state_explicit C use_case_key trigger_info callable_obj
             m Hm Hne), explicit_mode_eq.
  assert (∀ keep, (∀ k, keep k = true → recognised k = true) →
                  entries keep m = []) as Hent.
  { intros keep Hk. apply entries_empty.
    eapply Forall_impl; [exact Hall|]. intros k Hr. cbn in Hr.
    destruct (keep k) eqn:E; [|done]. apply Hk in E. congruence. }
  assert (∀ key, recognised key = true → dict_get key m = None) as Hget.
  { intros key Hr. apply dict_get_None. intros Hin.
    rewrite Forall_forall in Hall. rewrite (Hall key Hin) in Hr. done. }
  eexists. split; [done|].
  cbn [sig_params uc_arg_names initial_state].
  unfold kwargs_lines, bare_params, bare_bindings.
  rewrite (explicit_true trigger_info m Hm Hne).
  cbn [uc_arg_names].
  rewrite (Hent is_path_query)
    by (intros k Hk; apply recognised_cases; by left).
  rewrite (Hent is_body_field)
    by (intros k Hk; apply recognised_cases; by right; right; left).
  rewrite (Hent is_params_field)
    by (intros k Hk; apply recognised_cases;
        by right; right; right; right; left).
  rewrite (Hent is_headers_field)
    by (intros k Hk; apply recognised_cases;
        by right; right; right; right; right; right).
  rewrite !Hget by done.
  done.
Qed.

End bound_entries.

Lemma bound_destinations_witness :
  mapper {| method := None; path := None;
            mapper := Some [("body", "payload"); ("cookie.sid", "sid");
                            ("params.page", "page")] |}
    = Some [("body", "payload"); ("cookie.sid", "sid");
            ("params.page", "page")] ∧
  [("body", "payload"); ("cookie.sid", "sid"); ("params.page", "page")] ≠ [] ∧
  NoDup [("body", "payload"); ("cookie.sid", "sid");
         ("params.page", "page")].*1 ∧
  ∃ st,
    TriggerHttpProcessor.signature_state Sample.collaborators "list"
      {| method := None; path := None;
         mapper := Some [("body", "payload"); ("cookie.sid", "sid");
                         ("params.page", "page")] |}
      Sample.plain = Some st ∧
    ∀ dst, dst ∈ (uc_arg_names st).*1 ↔
           ∃ k, (k, dst) ∈ [("body", "payload"); ("cookie.sid", "sid");
                            ("params.page", "page")]
                ∧ recognised k = true.
Proof.
  assert (NoDup [("body", "payload"); ("cookie.sid", "sid");
                 ("params.page", "page")].*1) as Hnd.
  { cbn. apply NoDup_ListNoDup.
    repeat constructor; cbn; intros H;
      repeat (destruct H as [H|H]; [discriminate H|]); exact H. }
  split; [reflexivity|]. split; [discriminate|]. split; [exact Hnd|].
  apply (bound_destinations Sample.collaborators "list" _ Sample.plain
           [("body", "payload"); ("cookie.sid", "sid");
            ("params.page", "page")]);
    [reflexivity|discriminate|exact Hnd].
Defined.

Lemma unrecognised_mapper_witness :
  mapper {| method := None; path := Some "/x/{id}";
            mapper := Some [("cookie.sid", "sid"); ("path_query", "id")] |}
    = Some [("cookie.sid", "sid"); ("path_query", "id")] ∧
  [("cookie.sid", "sid"); ("path_query", "id")] ≠ [] ∧
  Forall (λ k, recognised k = false)
    [("cookie.sid", "sid"); ("path_query", "id")].*1 ∧
  ∃ st,
    TriggerHttpProcessor.signature_state Sample.collaborators "x"
      {| method := None; path := Some "/x/{id}";
         mapper := Some [("cookie.sid", "sid"); ("path_query", "id")] |}
      Sample.plain = Some st ∧
    sig_params st = [] ∧ uc_arg_names st = [] ∧
    TriggerHttpProcessor.kwargs_lines "x"
      {| method := None; path := Some "/x/{id}";
         mapper := Some [("cookie.sid", "sid"); ("path_query", "id")] |} st
    = [].
Proof.
  assert (Forall (λ k, recognised k = false)
            [("cookie.sid", "sid"); ("path_query", "id")].*1) as Hall
    by (repeat constructor).
  split; [reflexivity|]. split; [discriminate|]. split; [exact Hall|].
  apply (unrecognised_mapper Sample.collaborators "x" _ Sample.plain
           [("cookie.sid", "sid"); ("path_query", "id")]);
    [reflexivity|discriminate|exact Hall].
Defined.

(** ** The commas at the end of the declarations *)

Section trailing_commas.
Import TriggerHttpProcessor.
Context (C : Collaborators).
Context (use_case_key : string) (uc_info : UseCaseCodeInfo)
        (trigger_info : TriggerHttp) (callable_obj : callable C)
        (identifier : Z).

Lemma contains_app_l s p needle : contains s needle → contains (s +:+ p) needle.
Proof.
  intros (pre & post & ->). exists pre, (post +:+ p).
  by rewrite !StrFacts.app_assoc.
Qed.

Lemma contains_trans s t u : contains s t → contains t u → contains s u.
Proof.
  intros (pre & post & ->) (pre' & post' & ->).
  exists (pre +:+ pre'), (post' +:+ post).
  by rewrite !StrFacts.app_assoc.
Qed.

Lemma join_cons sep x y l :
  Str.join sep (x :: y :: l) = x +:+ sep +:+ Str.join sep (y :: l).
Proof. reflexivity. Qed.

(** Two neighbours of a list are joined by one separator. *)
Lemma join_contains_adjacent sep pre a b rest :
  contains (Str.join sep (pre ++ a :: b :: rest)) (a +:+ sep +:+ b).
Proof.
  induction pre as [|x pre IH].
  - cbn [app]. rewrite join_cons. destruct rest as [|c rest].
    + exists "", "". by rewrite StrFacts.app_nil_l, StrFacts.app_nil_r.
    + rewrite join_cons. exists "", (sep +:+ Str.join sep (c :: rest)).
      by rewrite StrFacts.app_nil_l, !StrFacts.app_assoc.
  - cbn [app]. destruct (pre ++ a :: b :: rest) as [|y l] eqn:E.
    + by destruct pre.
    + rewrite join_cons. by do 2 apply contains_app_r.
Qed.

Lemma two_distinct_length {A} (l : list A) x y :
  x ∈ l → y ∈ l → x ≠ y → 2 ≤ length l.
Proof.
  destruct l as [|a [|b l]]; intros Hx Hy Hne.
  - by apply elem_of_nil in Hx.
  - apply list_elem_of_singleton in Hx, Hy. congruence.
  - cbn. lia.
Qed.

Lemma body_field_decl_comma f T :
  body_field_decl C f T
  = (f +:+ ": " +:+ T +:+ " = Body(..., alias=" +:+ str_repr C f +:+ ")")
      +:+ ",  ".
Proof. unfold body_field_decl. rewrite !StrFacts.app_assoc. reflexivity. Qed.

Lemma params_decl_comma d T :
  params_decl d T
  = (d +:+ ": " +:+ T +:+ " = Depends(_all_query_params)") +:+ ",  ".
Proof. unfold params_decl. rewrite !StrFacts.app_assoc. reflexivity. Qed.

Lemma params_field_decl_comma f T :
  params_field_decl C f T
  = (f +:+ ": " +:+ T +:+ " = Query(None, alias=" +:+ str_repr C f +:+ ")")
      +:+ ",  ".
Proof.
  unfold params_field_decl. rewrite !StrFacts.app_assoc. reflexivity.
Qed.

Lemma headers_decl_comma d T :
  headers_decl d T
  = (d +:+ ": " +:+ T +:+ " = Depends(_all_headers)") +:+ ",  ".
Proof. unfold headers_decl. rewrite !StrFacts.app_assoc. reflexivity. Qed.

Lemma headers_field_decl_comma f T :
  headers_field_decl C f T
  = (f +:+ ": " +:+ T +:+ " = Header(..., alias=" +:+ str_repr C f +:+ ")")
      +:+ ",  ".
Proof.
  unfold headers_field_decl. rewrite !StrFacts.app_assoc. reflexivity.
Qed.

(** The declarations that follow the bare [body] in the signature. *)
Lemma comma_declarations m :
  Forall (λ d, ∃ x, d = x +:+ ",  ")
    ((field_param C callable_obj (body_field_decl C)
        <$> entries is_body_field m)
       ++ bare_params C callable_obj "params" "Dict[str, Any]" params_decl m
       ++ (field_param C callable_obj (params_field_decl C)
             <$> entries is_params_field m)
       ++ bare_params C callable_obj "headers" "Dict[str, str]"
            headers_decl m
       ++ (field_param C callable_obj (headers_field_decl C)
             <$> entries is_headers_field m)).
Proof.
  repeat apply Forall_app_2.
  - apply Forall_fmap, Forall_forall. intros kv _. cbn.
    unfold field_param. rewrite body_field_decl_comma. by eexists.
  - unfold bare_params. destruct (dict_get "params" m); repeat constructor.
    rewrite params_decl_comma. by eexists.
  - apply Forall_fmap, Forall_forall. intros kv _. cbn.
    unfold field_param. rewrite params_field_decl_comma. by eexists.
  - unfold bare_params. destruct (dict_get "headers" m); repeat constructor.
    rewrite headers_decl_comma. by eexists.
  - apply Forall_fmap, Forall_forall. intros kv _. cbn.
    unfold field_param. rewrite headers_field_decl_comma. by eexists.
Qed.

Lemma key_of_entries keep m k :
  k ∈ m.*1 → keep k = true → k ∈ (entries keep m).*1.
Proof.
  intros [[k' v] [-> Hin]]%list_elem_of_fmap Hk.
  apply (list_elem_of_fmap_2 fst _ (k', v)). by apply entries_elem.
Qed.

Lemma key_of_bare key m :
  key ∈ m.*1 → key ∈ ((λ _, key) <$> bare_bindings key m).
Proof.
  intros Hin. apply dict_get_is_Some in Hin as [dst Hd].
  unfold bare_bindings. rewrite Hd. cbn. by left.
Qed.

Lemma comma_count m k1 k2 :
  k1 ∈ m.*1 → k2 ∈ m.*1 → k1 ≠ k2 →
  comma_key k1 = true → comma_key k2 = true →
  2 ≤ length
        ((field_param C callable_obj (body_field_decl C)
            <$> entries is_body_field m)
           ++ bare_params C callable_obj "params" "Dict[str, Any]"
                params_decl m
           ++ (field_param C callable_obj (params_field_decl C)
                 <$> entries is_params_field m)
           ++ bare_params C callable_obj "headers" "Dict[str, str]"
                headers_decl m
           ++ (field_param C callable_obj (headers_field_decl C)
                 <$> entries is_headers_field m)).
Proof.
  intros H1 H2 Hne Hc1 Hc2.
  assert (∀ k, k ∈ m.*1 → comma_key k = true →
            k ∈ (entries is_body_field m).*1
                  ++ ((λ _, "params") <$> bare_bindings "params" m)
                  ++ (entries is_params_field m).*1
                  ++ ((λ _, "headers") <$> bare_bindings "headers" m)
                  ++ (entries is_headers_field m).*1) as Hin.
  { intros k Hk Hc. unfold comma_key in Hc.
    rewrite !orb_true_iff, !String.eqb_eq in Hc.
    rewrite !elem_of_app.
    destruct Hc as [[[[Hc|Hc]|Hc]|Hc]|Hc].
    - left. by apply key_of_entries.
    - subst k. right. left. by apply key_of_bare.
    - right. right. left. by apply key_of_entries.
    - subst k. right. right. right. left. by apply key_of_bare.
    - right. right. right. right. by apply key_of_entries. }
  pose proof (two_distinct_length _ k1 k2 (Hin k1 H1 Hc1) (Hin k2 H2 Hc2) Hne)
    as Hlen.
  rewrite !length_app, !length_fmap in Hlen.
  rewrite !length_app, !length_fmap.
  unfold bare_params, bare_bindings in *.
  by destruct (dict_get "params" m), (dict_get "headers" m).
Qed.

(** X13: the declarations of the body fields, of the query aggregate and
    fields and of the header aggregate and fields end with a comma and two
    spaces, and the declarations are joined by a comma and a space.  So when
    the mapper has two different keys of these categories, the line of the
    definition contains two commas with only spaces between them, an empty
    parameter. *)
Theorem doubled_comma m k1 k2 :
  mapper trigger_info = Some m →
  k1 ∈ m.*1 → k2 ∈ m.*1 → k1 ≠ k2 →
  comma_key k1 = true → comma_key k2 = true →
  ∃ st,
    signature_state C use_case_key trigger_info callable_obj = Some st ∧
    contains (def_line C use_case_key uc_info callable_obj identifier st)
      ",  , ".
Proof.
  intros Hm H1 H2 Hne Hc1 Hc2.
  assert (m ≠ []) as Hnil by (intros ->; by apply elem_of_nil in H1).
  rewrite (signature_state_explicit C use_case_key trigger_info callable_obj
             m Hm Hnil), explicit_mode_eq.
  eexists. split; [done|].
  pose proof (comma_count m k1 k2 H1 H2 Hne Hc1 Hc2) as Hlen.
  pose proof (comma_declarations m) as Hall.
  unfold def_line. cbn [sig_params initial_state app].
  rewrite (app_assoc (field_param C callable_obj path_decl <$> _)).
  destruct (_ ++ _ ++ _ ++ _ ++ (field_param C callable_obj
                                   (headers_field_decl C) <$> _))
    as [|a [|b rest]] eqn:E in Hlen, Hall |- *; [cbn in Hlen; lia..|].
  apply Forall_cons in Hall as [[x ->] _].
  do 4 apply contains_app_r. apply contains_app_l.
  eapply contains_trans; [apply join_contains_adjacent|].
  exists x, b. by rewrite !StrFacts.app_assoc.
Qed.

End trailing_commas.

Lemma doubled_comma_witness :
  mapper {| method := None; path := None;
            mapper := Some [("params.page", "page"); ("params.size", "size")]
         |}
    = Some [("params.page", "page"); ("params.size", "size")] ∧
  "params.page" ∈ [("params.page", "page"); ("params.size", "size")].*1 ∧
  "params.size" ∈ [("params.page", "page"); ("params.size", "size")].*1 ∧
  "params.page" ≠ "params.size" ∧
  comma_key "params.page" = true ∧ comma_key "params.size" = true ∧
  ∃ st,
    TriggerHttpProcessor.signature_state Sample.collaborators "list"
      {| method := None; path := None;
         mapper := Some [("params.page", "page"); ("params.size", "size")] |}
      Sample.plain = Some st ∧
    contains
      (TriggerHttpProcessor.def_line Sample.collaborators "list"
         Sample.sync_info Sample.plain 1 st)
      ",  , ".
Proof.
  assert ("params.page"
            ∈ [("params.page", "page"); ("params.size", "size")].*1) as H1
    by (cbn; by left).
  assert ("params.size"
            ∈ [("params.page", "page"); ("params.size", "size")].*1) as H2
    by (cbn; right; by left).
  split; [reflexivity|]. split; [exact H1|]. split; [exact H2|].
  split; [discriminate|]. split; [reflexivity|]. split; [reflexivity|].
  apply (doubled_comma Sample.collaborators "list" Sample.sync_info _
           Sample.plain 1 [("params.page", "page"); ("params.size", "size")]
           "params.page" "params.size");
    [reflexivity|exact H1|exact H2|discriminate|reflexivity|reflexivity].
Defined.

(** The line of the definition for two query fields. *)
Example doubled_comma_line :
  TriggerHttpProcessor.def_line Sample.collaborators "list" Sample.sync_info
    Sample.plain 1
    {| imports := ∅;
       sig_params :=
         [TriggerHttpProcessor.params_field_decl Sample.collaborators
            "page" "str";
          TriggerHttpProcessor.params_field_decl Sample.collaborators
            "size" "str"];
       uc_arg_names := [] |}
  = "def list_handler_1(page: str = Query(None, alias='page'),  , "
      +:+ "size: str = Query(None, alias='size'),  ):".
Proof. reflexivity. Qed.

(** ** The decorator and the imports of the fallback mode *)

Section decorator.
Import TriggerHttpProcessor.
Context (C : Collaborators).
Context (use_case_key uc_var_name : string) (uc_info : UseCaseCodeInfo)
        (trigger_info : TriggerHttp) (callable_obj : callable C)
        (identifier : Z)
        (use_case_name use_case_description : option string).

Lemma or_else_truthy o d : d ≠ "" → Str.or_else o d ≠ "".
Proof.
  intros Hd. unfold Str.or_else, Str.truthy.
  destruct o as [s|]; [|done].
  by destruct (String.eqb_spec s "").
Qed.

(** X14: when the upper case of a text that is not empty is never empty, the
    method of the decorator is always the lower case of the upper case of
    the method of the trigger, or of GET when it is missing or empty: the
    alternative that writes GET in capitals is never taken. *)
Theorem decorator_method :
  upper_keeps_text C →
  http_decorator C use_case_key trigger_info use_case_name
    use_case_description
  = "@app."
      +:+ str_lower C (str_upper C (Str.or_else (method trigger_info) "GET"))
      +:+ "(" +:+ dquote +:+ the_path use_case_key trigger_info +:+ dquote
      +:+ extra_args_decorator use_case_name use_case_description +:+ ")".
Proof.
  intros Hup. unfold http_decorator, the_method.
  assert (Str.truthy (str_upper C (Str.or_else (method trigger_info) "GET"))
          = true) as ->; [|done].
  unfold Str.truthy. apply negb_true_iff, String.eqb_neq, Hup.
  by apply or_else_truthy.
Qed.

Lemma paths_as_field_imports im names :
  foldl (λ im p,
           add_names "fastapi" {["Path"]}
             (merge_imports (type_of_or_str C callable_obj p).2 im))
        im names
  = field_imports C callable_obj "Path" im ((λ p, ("", p)) <$> names).
Proof. unfold field_imports. by rewrite foldl_fmap. Qed.

(** X15: without a mapper, and with annotations that ask for none of them,
    [Query] and [Header] are never imported, the query and the headers
    being read through [Depends], and [Body] always is. *)
Theorem fallback_markers :
  mapper trigger_info = None ∨ mapper trigger_info = Some [] →
  annotations_need_no_marker C →
  ∃ r,
    __call__ C use_case_key uc_var_name uc_info trigger_info callable_obj
      identifier use_case_name use_case_description = Some r ∧
    "Body" ∈ fastapi_names (importing r) ∧
    ("Query" ∉ fastapi_names (importing r)) ∧
    ("Header" ∉ fastapi_names (importing r)).
Proof.
  intros Hm Hclean.
  eexists. split; [by apply call_fallback|]. cbn [importing].
  rewrite fallback_imports, paths_as_field_imports.
  assert (∀ sym, is_marker sym →
            sym ∈ fastapi_names
                    (merge_imports (return_part C callable_obj).2
                       (add_names "fastapi" {["Depends"]}
                          (add_names "typing" {["Dict"; "Any"]}
                             (add_names "fastapi" {["Body"]}
                                (field_imports C callable_obj "Path" ∅
                                   ((λ p, ("", p)) <$>
                                      _extract_path_param_names_from_path
                                        (Some (the_path use_case_key
                                                 trigger_info))))))))
            ↔ sym = "Body") as Hmark.
  { intros sym Hs.
    rewrite (marker_return_imports C callable_obj Hclean) by done.
    rewrite fastapi_add_names, fastapi_add_names_other by done.
    rewrite fastapi_add_names, !elem_of_union, !elem_of_singleton.
    rewrite (marker_field_imports C callable_obj Hclean) by done.
    unfold fastapi_names at 1. rewrite lookup_empty. cbn [default].
    split.
    - intros [[[H|[_ ->]]|H]| ->]; [by apply not_elem_of_empty in H| |done|].
      + by destruct Hs as [?|[?|?]].
      + by destruct Hs as [?|[?|?]].
    - intros ->. left. by right. }
  split_and!.
  - apply Hmark; [by left|done].
  - intros H. apply Hmark in H; [done|by right; left].
  - intros H. apply Hmark in H; [done|by right; right].
Qed.

End decorator.

Lemma sample_upper_keeps_text : upper_keeps_text Sample.collaborators.
Proof. intros [|a s] Hs; [done|]. by cbn. Qed.

Lemma decorator_method_witness :
  upper_keeps_text Sample.collaborators ∧
  TriggerHttpProcessor.http_decorator Sample.collaborators "list"
    {| method := Some "Post"; path := None; mapper := None |} None None
  = "@app.post(" +:+ dquote +:+ "/list" +:+ dquote +:+ ")".
Proof.
  split; [exact sample_upper_keeps_text|].
  exact (decorator_method Sample.collaborators "list"
           {| method := Some "Post"; path := None; mapper := None |}
           None None sample_upper_keeps_text).
Defined.

Lemma fallback_markers_witness :
  (mapper {| method := None; path := Some "/items/{item_id}";
             mapper := None |} = None ∨
   mapper {| method := None; path := Some "/items/{item_id}";
             mapper := None |} = Some []) ∧
  annotations_need_no_marker Sample.collaborators ∧
  ∃ r,
    TriggerHttpProcessor.__call__ Sample.collaborators "items" "ITEMS"
      Sample.sync_info
      {| method := None; path := Some "/items/{item_id}"; mapper := None |}
      Sample.plain 0 None None = Some r ∧
    "Body" ∈ fastapi_names (importing r) ∧
    ("Query" ∉ fastapi_names (importing r)) ∧
    ("Header" ∉ fastapi_names (importing r)).
Proof.
  split; [by left|]. split; [exact sample_annotations_need_no_marker|].
  apply (fallback_markers Sample.collaborators "items" "ITEMS"
           Sample.sync_info
           {| method := None; path := Some "/items/{item_id}";
              mapper := None |}
           Sample.plain 0 None None);
    [by left|exact sample_annotations_need_no_marker].
Defined.
